(** * The attribute-event processing pipeline of [AssetProcessingService]

    A shallow embedding of
    [manager/server/.../asset/AssetProcessingService.java]: the two entry
    points [updateAttributeValue] (user / rule initiated) and
    [processSensorUpdate] (protocol initiated), the shared validation in
    [processUpdate] and the chain of consumers that follows it.

    Java objects are modelled by their state.  The one mutable object the
    service touches is the asset found in storage (attributes are views on
    the asset's JSON), so the state that is threaded through the functions is
    the asset; an attribute object is represented by its name and read or
    written through its asset.  Exceptions are explicit results. *)

From stdpp Require Import gmap strings list fin_maps.
From Stdlib Require Import ZArith Lia.

Local Open Scope Z_scope.

(** ** Java [long] arithmetic *)
Module Long.

Definition MIN_VALUE : Z := - 2 ^ 63.
Definition MAX_VALUE : Z := 2 ^ 63 - 1.

(** Two's complement wrap-around of a mathematical integer to 64 bits. *)
Definition wrap (z : Z) : Z := (z + 2 ^ 63) mod 2 ^ 64 - 2 ^ 63.

(** [a - b] on [long] operands. *)
Definition sub (a b : Z) : Z := wrap (a - b).

Definition inRange (z : Z) : Prop := MIN_VALUE <= z <= MAX_VALUE.

End Long.

(** ** Exceptions *)
#[local] Set Warnings "-register-all".

Inductive Throwable : Type :=
| IllegalArgumentException (message : string)
| RuntimeException (message : string) (cause : option Throwable)
| NullPointerException
| OtherThrowable (className message : string).

(** [AssetUpdate.Status].  Modelled from the spec: the enum is declared in
    [AssetUpdate], which is not among the sources; the service names
    [HANDLED], [ERROR], [COMPLETED] and [RULES_HANDLED], the spec adds
    [PENDING] and [CONTINUE]. *)
Inductive Status : Type :=
| PENDING | CONTINUE | RULES_HANDLED | HANDLED | ERROR | COMPLETED.

(** [AssetType].  Modelled from the spec: only [AGENT] and [THING] are named
    by the service; every other well known type is [OTHER]. *)
Inductive AssetType : Type :=
| AGENT | THING | OTHER (name : string).

Definition isAgent (t : AssetType) : bool :=
  match t with AGENT => true | _ => false end.

Record AttributeRef : Type := mkAttributeRef {
  entityId : string;
  attributeName : string
}.

Section Pipeline.

(** The dynamically typed payload of an event, and what an agent link
    resolves to. *)
Variable Value : Type.
Variable ProtocolConfiguration : Type.

(** ** Events *)
Record AttributeState : Type := mkAttributeState {
  attributeRef : AttributeRef;
  value : Value
}.

Record AttributeEvent : Type := mkAttributeEvent {
  attributeState : AttributeState;
  timestamp : Z
}.

Definition getEntityId (e : AttributeEvent) : string :=
  entityId (attributeRef (attributeState e)).
Definition getAttributeName (e : AttributeEvent) : string :=
  attributeName (attributeRef (attributeState e)).
Definition getValue (e : AttributeEvent) : Value := value (attributeState e).
Definition getTimestamp (e : AttributeEvent) : Z := timestamp e.

(** ** Assets and attributes *)

(** Modelled from the spec: the state of an [AssetAttribute], whose class is
    not among the sources: current value, last update timestamp (a negative
    sentinel means never set), the read-only flag and the optional link to an
    owning agent. *)
Record AssetAttribute : Type := mkAssetAttribute {
  currentValue : Value;
  lastUpdateTimestamp : Z;
  readOnly : bool;
  agentLink : option AttributeRef
}.

(** Modelled from the spec: a [ServerAsset], whose class is not among the
    sources: an identifier, a well known type and named attributes. *)
Record ServerAsset : Type := mkServerAsset {
  assetId : string;
  wellKnownType : AssetType;
  attributes : gmap string AssetAttribute
}.

(** The attribute object handed to [processUpdate]: a plain [AssetAttribute]
    view or a [ThingAttribute], which also carries the resolved protocol
    configuration.  Either is a view, by name, on the asset's attributes. *)
Inductive AbstractAssetAttribute : Type :=
| AssetAttributeView (name : string)
| ThingAttributeView (name : string) (protocolConfiguration : ProtocolConfiguration).

Definition getName (a : AbstractAssetAttribute) : string :=
  match a with
  | AssetAttributeView n => n
  | ThingAttributeView n _ => n
  end.

(** The attribute's state as its asset holds it; [None] plays the role of a
    null attribute reference. *)
Definition deref (asset : ServerAsset) (a : AbstractAssetAttribute)
  : option AssetAttribute :=
  attributes asset !! getName a.

(** The constraints an attribute puts on its values (type compatibility,
    ranges, enumerations); they are defined by the attribute classes, which
    are not among the sources. *)
Variable satisfiesConstraints : AssetAttribute -> Value -> bool.

(** [toString()] of the objects that end up in exception messages. *)
Variable ServerAsset_toString : ServerAsset -> string.

(** Modelled from the spec: [new AssetAttributes(asset).get(name)].  The
    wrapper class is not among the sources; on a missing asset no attribute
    is found (the asset must exist, the event is dropped if not). *)
Definition AssetAttributes_get (asset : option ServerAsset) (name : string)
  : option AbstractAssetAttribute :=
  a ← asset; _ ← attributes a !! name; Some (AssetAttributeView name).

(** Modelled from the spec: [ThingAttribute.get(attribute, resolver)], which
    is not among the sources: the attribute must currently resolve to a valid
    link to an owning agent, looked up afresh for every event; otherwise the
    result is null. *)
Definition ThingAttribute_get (thing : option ServerAsset)
    (attribute : option AbstractAssetAttribute)
    (resolver : AttributeRef -> option ProtocolConfiguration)
  : option AbstractAssetAttribute :=
  t ← thing; a ← attribute; st ← deref t a; link ← agentLink st;
  pc ← resolver link; Some (ThingAttributeView (getName a) pc).

(** [attribute.isReadOnly()]. *)
Definition isReadOnly (asset : ServerAsset) (a : AbstractAssetAttribute) : bool :=
  match deref asset a with
  | Some st => readOnly st
  | None => false
  end.

(** [attribute.getStateEvent()]: a fresh event holding the attribute's
    current value and timestamp. *)
Definition getStateEvent (asset : ServerAsset) (a : AbstractAssetAttribute)
  : option AttributeEvent :=
  st ← deref asset a;
  Some (mkAttributeEvent
          (mkAttributeState (mkAttributeRef (assetId asset) (getName a))
                            (currentValue st))
          (lastUpdateTimestamp st)).

Inductive SetValueResult : Type :=
| ValueSet (asset' : ServerAsset)
| SetValueThrows (ex : Throwable).

(** Modelled from the spec: [attribute.setValue(value, timestamp)], which is
    not among the sources: the value is checked against the attribute's
    constraints; a violation throws [IllegalArgumentException] and leaves the
    attribute as it was, otherwise value and timestamp are replaced in
    place. *)
Definition setValue (asset : ServerAsset) (a : AbstractAssetAttribute)
    (v : Value) (ts : Z) : SetValueResult :=
  match deref asset a with
  | None => SetValueThrows NullPointerException
  | Some st =>
      if satisfiesConstraints st v
      then ValueSet
             (mkServerAsset (assetId asset) (wellKnownType asset)
                (<[getName a := mkAssetAttribute v ts (readOnly st) (agentLink st)]>
                   (attributes asset)))
      else SetValueThrows (IllegalArgumentException "attribute constraint violation")
  end.

(** ** The processing context *)

(** Modelled from the spec: [AssetUpdate], whose class is not among the
    sources.  The constructor arguments are those the service passes; the
    status starts as [PENDING] and no error is attached. *)
Record AssetUpdate : Type := mkAssetUpdate {
  asset : ServerAsset;
  attribute : AbstractAssetAttribute;
  oldValue : Value;
  oldValueTimestamp : Z;
  northbound : bool;
  status : Status;
  error : option Throwable
}.

Definition newAssetUpdate (asset : ServerAsset) (attribute : AbstractAssetAttribute)
    (oldValue : Value) (oldValueTimestamp : Z) (northbound : bool) : AssetUpdate :=
  mkAssetUpdate asset attribute oldValue oldValueTimestamp northbound PENDING None.

Definition setStatus (u : AssetUpdate) (s : Status) : AssetUpdate :=
  mkAssetUpdate (asset u) (attribute u) (oldValue u) (oldValueTimestamp u)
                (northbound u) s (error u).

Definition setError (u : AssetUpdate) (t : Throwable) : AssetUpdate :=
  mkAssetUpdate (asset u) (attribute u) (oldValue u) (oldValueTimestamp u)
                (northbound u) (status u) (Some t).

Variable AssetUpdate_toString : AssetUpdate -> string.

(** ** Consumers *)

(** A [Consumer<AssetUpdate>]: [accept] may mutate the context and whatever
    it references, and may throw after having done so. *)
Record Consumer : Type := mkConsumer {
  toString : string;
  accept : AssetUpdate -> AssetUpdate * option Throwable
}.

(** One call of [processor.accept(assetUpdate)], as observed by the loop:
    the context it was given, the context as the consumer left it, and what
    it threw. *)
Record Invocation : Type := mkInvocation {
  processor : Consumer;
  given : AssetUpdate;
  returned : AssetUpdate;
  raised : option Throwable
}.

(** The [try { accept } catch (Throwable t) { setStatus(ERROR); setError(t) }]
    around each call: the context the [switch] then inspects. *)
Definition inspected (i : Invocation) : AssetUpdate :=
  match raised i with
  | Some t => setError (setStatus (returned i) ERROR) t
  | None => returned i
  end.

Definition invoke (p : Consumer) (u : AssetUpdate) : Invocation :=
  let '(u', t) := accept p u in mkInvocation p u u' t.

(** ** Results *)

(** Why an event was ignored: one constructor for each [LOG.warning]
    followed by [return]. *)
Inductive Rejection : Type :=
| AssetNotFound
| AttributeNotFound
| AttributeReadOnly
| NotLinkedToAgent
| EventTimeInFuture
| EventTimeOlderThanLastState
| ConstraintViolation (ex : Throwable).

Inductive Outcome : Type :=
| Ignored (why : Rejection)     (* logged, the method returns *)
| Processed                     (* the chain ran and the method returns *)
| Thrown (t : Throwable).       (* an exception reaches the caller *)

(** What a call did: how it ended, the consumer calls it made in order, the
    context if one was constructed, and the state in which it leaves the
    asset it resolved (none if no asset was resolved). *)
Record Result : Type := mkResult {
  outcome : Outcome;
  invoked : list Invocation;
  update : option AssetUpdate;
  target : option ServerAsset
}.

Definition ignored (a : option ServerAsset) (why : Rejection) : Result :=
  mkResult (Ignored why) [] None a.

Definition thrown (a : option ServerAsset) (t : Throwable) : Result :=
  mkResult (Thrown t) [] None a.

Definition after (i : Invocation) (r : Result) : Result :=
  mkResult (outcome r) (i :: invoked r) (update r) (target r).

(** ** [processUpdate(AssetUpdate)] *)

Definition processorError (p : Consumer) (u : AssetUpdate) : Throwable :=
  RuntimeException
    ("Processor " +:+ toString p +:+ " error: " +:+ AssetUpdate_toString u)
    (error u).

(** The labelled [for] loop with the statement that follows it. *)
Fixpoint processorLoop (processors : list Consumer) (assetUpdate : AssetUpdate)
  : Result :=
  match processors with
  | [] =>
      let u := setStatus assetUpdate COMPLETED in
      mkResult Processed [] (Some u) (Some (asset u))
  | p :: rest =>
      let i := invoke p assetUpdate in
      let u := inspected i in
      match status u with
      | HANDLED =>
          (* break processorLoop *)
          let u' := setStatus u COMPLETED in
          mkResult Processed [i] (Some u') (Some (asset u'))
      | ERROR =>
          let u' := setStatus u COMPLETED in
          mkResult (Thrown (processorError p u')) [i] (Some u') (Some (asset u'))
      | _ => after i (processorLoop rest u)
      end
  end.

Definition processUpdateChain (processors : list Consumer) (assetUpdate : AssetUpdate)
  : Result :=
  processorLoop processors assetUpdate.

(** ** [processUpdate(asset, attribute, attributeEvent, northbound)] *)

Definition processUpdate (processors : list Consumer) (now : Z)
    (asset : ServerAsset) (attribute : AbstractAssetAttribute)
    (attributeEvent : AttributeEvent) (northbound : bool) : Result :=
  if 1000 <? Long.sub (getTimestamp attributeEvent) now
  then ignored (Some asset) EventTimeInFuture
  else
    match getStateEvent asset attribute with
    | None => thrown (Some asset) NullPointerException
    | Some lastStateEvent =>
        if (0 <=? getTimestamp lastStateEvent)
           && (getTimestamp attributeEvent <=? getTimestamp lastStateEvent)
        then ignored (Some asset) EventTimeOlderThanLastState
        else
          match setValue asset attribute (getValue attributeEvent)
                         (getTimestamp attributeEvent) with
          | SetValueThrows (IllegalArgumentException m) =>
              ignored (Some asset) (ConstraintViolation (IllegalArgumentException m))
          | SetValueThrows ex => thrown (Some asset) ex
          | ValueSet asset' =>
              processUpdateChain processors
                (newAssetUpdate asset' attribute (getValue lastStateEvent)
                                (getTimestamp lastStateEvent) northbound)
          end
    end.

(** ** Entry points *)

(** [assetStorageService.find(id, true)]: the stored asset, or null. *)
Definition find (assetStorageService : gmap string ServerAsset) (id : string)
  : option ServerAsset :=
  assetStorageService !! id.

Definition updateAttributeValue (assetStorageService : gmap string ServerAsset)
    (processors : list Consumer) (now : Z) (attributeEvent : AttributeEvent)
  : Result :=
  match find assetStorageService (getEntityId attributeEvent) with
  | None => ignored None AssetNotFound
  | Some asset =>
      if isAgent (wellKnownType asset)
      then thrown (Some asset)
             (IllegalArgumentException
                ("Agent attributes can not be updated individually, update the whole asset instead: "
                 +:+ ServerAsset_toString asset))
      else
        match AssetAttributes_get (Some asset) (getAttributeName attributeEvent) with
        | None => ignored (Some asset) AttributeNotFound
        | Some attribute =>
            if isReadOnly asset attribute
            then ignored (Some asset) AttributeReadOnly
            else processUpdate processors now asset attribute attributeEvent false
        end
  end.

Definition processSensorUpdate (assetStorageService : gmap string ServerAsset)
    (protocolConfigurationResolver : AttributeRef -> option ProtocolConfiguration)
    (processors : list Consumer) (now : Z) (attributeEvent : AttributeEvent)
  : Result :=
  let thing := find assetStorageService (getEntityId attributeEvent) in
  let attribute := AssetAttributes_get thing (getAttributeName attributeEvent) in
  let thingAttribute :=
    ThingAttribute_get thing attribute protocolConfigurationResolver in
  match thingAttribute, thing with
  | Some thingAttribute, Some thing =>
      processUpdate processors now thing thingAttribute attributeEvent true
  | _, _ => ignored thing NotLinkedToAgent
  end.


(** The loop continues after a call exactly when the inspected status is
    neither [HANDLED] nor [ERROR]. *)
Definition stops (s : Status) : bool :=
  match s with HANDLED | ERROR => true | _ => false end.

(** How the loop ends after the call that made it stop. *)
Definition conclusion (p : Consumer) (u : AssetUpdate) : Outcome :=
  match status u with
  | ERROR => Thrown (processorError p (setStatus u COMPLETED))
  | _ => Processed
  end.

(** A consumer that leaves the asset of the context untouched. *)
Definition keepsAsset (p : Consumer) : Prop :=
  forall u, asset (fst (accept p u)) = asset u.

(** ** [init]

    [processors] starts empty; [init] appends the four services in this
    order. *)
Definition init (processors : list Consumer)
    (rulesService agentService assetStorageService assetDatapointService : Consumer)
  : list Consumer :=
  (((processors ++ [rulesService]) ++ [agentService]) ++ [assetStorageService])
  ++ [assetDatapointService].

(** ** Scenarios

    Small consumers and assets on which the pipeline is run by the examples
    that follow the theorems. *)

Definition passes : Consumer :=
  mkConsumer "passes" (fun u => (u, None)).

Definition handles : Consumer :=
  mkConsumer "handles" (fun u => (setStatus u HANDLED, None)).

Definition throws (t : Throwable) : Consumer :=
  mkConsumer "throws" (fun u => (u, Some t)).

Definition handlesThenThrows (t : Throwable) : Consumer :=
  mkConsumer "handlesThenThrows" (fun u => (setStatus u HANDLED, Some t)).

Definition flagsError : Consumer :=
  mkConsumer "flagsError" (fun u => (setStatus u ERROR, None)).

Definition reportsError (t : Throwable) : Consumer :=
  mkConsumer "reportsError" (fun u => (setError (setStatus u ERROR) t, None)).

(** An asset with the single attribute [temperature]. *)
Definition device (type : AssetType) (v : Value) (ts : Z) (ro : bool)
    (link : option AttributeRef) : ServerAsset :=
  mkServerAsset "device1" type {[ "temperature" := mkAssetAttribute v ts ro link ]}.

Definition storing (a : ServerAsset) : gmap string ServerAsset :=
  {[ assetId a := a ]}.

Definition reading (v : Value) (ts : Z) : AttributeEvent :=
  mkAttributeEvent (mkAttributeState (mkAttributeRef "device1" "temperature") v) ts.

Definition temperature : AbstractAssetAttribute := AssetAttributeView "temperature".

(** * Properties *)

(** ** The consumer loop *)

Lemma invoke_processor p u : processor (invoke p u) = p.
Proof. unfold invoke. by destruct (accept p u). Qed.

Lemma invoke_given p u : given (invoke p u) = u.
Proof. unfold invoke. by destruct (accept p u). Qed.

Lemma invoke_accept p u :
  accept p u = (returned (invoke p u), raised (invoke p u)).
Proof. unfold invoke. by destruct (accept p u). Qed.

Lemma inspected_raised i t :
  raised i = Some t ->
  inspected i = setError (setStatus (returned i) ERROR) t.
Proof. unfold inspected. by intros ->. Qed.

Lemma inspected_quiet i : raised i = None -> inspected i = returned i.
Proof. unfold inspected. by intros ->. Qed.

Lemma inspected_asset i : asset (inspected i) = asset (returned i).
Proof. unfold inspected. by destruct (raised i). Qed.

(** A context inspected as [HANDLED] was left so by a consumer that
    returned. *)
Lemma inspected_handled i :
  status (inspected i) = HANDLED ->
  raised i = None /\ status (returned i) = HANDLED.
Proof. unfold inspected. destruct (raised i); simpl; [done|auto]. Qed.

Lemma processorLoop_nil u :
  processorLoop [] u
  = mkResult Processed [] (Some (setStatus u COMPLETED)) (Some (asset u)).
Proof. reflexivity. Qed.

Lemma processorLoop_continue p rest u :
  stops (status (inspected (invoke p u))) = false ->
  processorLoop (p :: rest) u
  = after (invoke p u) (processorLoop rest (inspected (invoke p u))).
Proof. simpl. by destruct (status (inspected (invoke p u))). Qed.

Lemma processorLoop_handled p rest u :
  status (inspected (invoke p u)) = HANDLED ->
  processorLoop (p :: rest) u
  = mkResult Processed [invoke p u]
      (Some (setStatus (inspected (invoke p u)) COMPLETED))
      (Some (asset (returned (invoke p u)))).
Proof. simpl. intros ->. by rewrite inspected_asset. Qed.

Lemma processorLoop_error p rest u :
  status (inspected (invoke p u)) = ERROR ->
  processorLoop (p :: rest) u
  = mkResult
      (Thrown (processorError p (setStatus (inspected (invoke p u)) COMPLETED)))
      [invoke p u]
      (Some (setStatus (inspected (invoke p u)) COMPLETED))
      (Some (asset (returned (invoke p u)))).
Proof. simpl. intros ->. by rewrite inspected_asset. Qed.

Lemma processorLoop_lookup ps : forall u (i : nat) inv,
  invoked (processorLoop ps u) !! i = Some inv ->
  ps !! i = Some (processor inv)
  /\ inv = invoke (processor inv) (given inv)
  /\ (stops (status (inspected inv)) = true ->
      let r := processorLoop ps u in
      length (invoked r) = S i
      /\ update r = Some (setStatus (inspected inv) COMPLETED)
      /\ target r = Some (asset (returned inv))
      /\ outcome r = conclusion (processor inv) (inspected inv)).
Proof.
  induction ps as [|p rest IH]; intros u i inv H; [done|].
  destruct (stops (status (inspected (invoke p u)))) eqn:Hs.
  - assert (processorLoop (p :: rest) u
            = mkResult (conclusion p (inspected (invoke p u))) [invoke p u]
                (Some (setStatus (inspected (invoke p u)) COMPLETED))
                (Some (asset (returned (invoke p u))))) as E.
    { unfold conclusion.
      destruct (status (inspected (invoke p u))) eqn:Hst; try done.
      - by rewrite processorLoop_handled.
      - by rewrite processorLoop_error. }
    rewrite E in H |- *. simpl in H.
    destruct i as [|i]; [|done]. simpl in H. injection H as <-.
    rewrite invoke_processor, invoke_given. by simpl.
  - rewrite processorLoop_continue in H |- * by done. simpl in H.
    destruct i as [|i]; simpl in H.
    + injection H as <-. rewrite invoke_processor, invoke_given.
      split; [done|]. split; [done|]. intros Hc. congruence.
    + destruct (IH _ _ _ H) as (Hp & Hi & Hstop).
      split; [done|]. split; [done|]. intros Hc.
      destruct (Hstop Hc) as (Hl & ? & ? & ?). simpl. by rewrite Hl.
Qed.

Lemma processorLoop_first ps u inv :
  invoked (processorLoop ps u) !! 0%nat = Some inv -> given inv = u.
Proof.
  destruct ps as [|p rest]; [done|]. intros H.
  assert (invoked (processorLoop (p :: rest) u) !! 0%nat = Some (invoke p u)) as E.
  { simpl. by destruct (status (inspected (invoke p u))). }
  rewrite E in H. injection H as <-. apply invoke_given.
Qed.

Lemma processorLoop_prefix ps : forall u,
  processor <$> invoked (processorLoop ps u)
  = take (length (invoked (processorLoop ps u))) ps.
Proof.
  induction ps as [|p rest IH]; intros u; [done|].
  simpl. destruct (status (inspected (invoke p u))); simpl;
    rewrite ?invoke_processor, ?take_0; try done; by rewrite IH.
Qed.

Lemma processorLoop_completed ps : forall u,
  exists u', update (processorLoop ps u) = Some u'
             /\ status u' = COMPLETED
             /\ target (processorLoop ps u) = Some (asset u').
Proof.
  induction ps as [|p rest IH]; intros u; [by eexists|].
  simpl. destruct (status (inspected (invoke p u))); simpl;
    try apply IH; by eexists.
Qed.

Lemma processorLoop_keepsAsset ps : forall u,
  Forall keepsAsset ps ->
  target (processorLoop ps u) = Some (asset u).
Proof.
  induction ps as [|p rest IH]; intros u Hk; [done|].
  inversion Hk as [|? ? Hp Hrest]; subst.
  assert (asset (inspected (invoke p u)) = asset u) as Ha.
  { rewrite inspected_asset. specialize (Hp u).
    rewrite invoke_accept in Hp. exact Hp. }
  simpl. destruct (status (inspected (invoke p u))); simpl;
    rewrite ?IH by done; by rewrite ?Ha.
Qed.

(** Everything that stops the loop, in one statement: the call at index [i]
    left a status that stops the loop. *)
Lemma processorLoop_stopped ps u (i : nat) inv :
  invoked (processorLoop ps u) !! i = Some inv ->
  stops (status (inspected inv)) = true ->
  let r := processorLoop ps u in
  ps !! i = Some (processor inv)
  /\ accept (processor inv) (given inv) = (returned inv, raised inv)
  /\ processor <$> invoked r = take (S i) ps
  /\ update r = Some (setStatus (inspected inv) COMPLETED)
  /\ target r = Some (asset (returned inv))
  /\ outcome r = conclusion (processor inv) (inspected inv).
Proof.
  intros H Hs r.
  destruct (processorLoop_lookup _ _ _ _ H) as (Hp & Hi & Hstop).
  destruct (Hstop Hs) as (Hl & Hu & Ht & Ho).
  repeat split; try done.
  - pose proof (invoke_accept (processor inv) (given inv)) as Ha.
    by rewrite <- Hi in Ha.
  - subst r. by rewrite processorLoop_prefix, Hl.
Qed.

(** ** Validation *)

Lemma setValue_ValueSet a attr v ts a' :
  setValue a attr v ts = ValueSet a' ->
  exists st, deref a attr = Some st
             /\ satisfiesConstraints st v = true
             /\ deref a' attr
                = Some (mkAssetAttribute v ts (readOnly st) (agentLink st)).
Proof.
  unfold setValue. destruct (deref a attr) as [st|] eqn:Hd; [|done].
  destruct (satisfiesConstraints st v) eqn:Hc; [|done].
  intros [= <-]. exists st. repeat split; try done.
  unfold deref. simpl. by rewrite lookup_insert_eq.
Qed.

(** A call of [processUpdate] either returns before the attribute is touched,
    or sets the attribute and runs the chain on the new context. *)
Lemma processUpdate_cases ps now a attr ev nb :
  let r := processUpdate ps now a attr ev nb in
  (invoked r = [] /\ update r = None /\ target r = Some a
   /\ outcome r <> Processed)
  \/ (exists last a',
        getStateEvent a attr = Some last
        /\ setValue a attr (getValue ev) (getTimestamp ev) = ValueSet a'
        /\ r = processUpdateChain ps
                 (newAssetUpdate a' attr (getValue last) (getTimestamp last) nb)).
Proof.
  unfold processUpdate.
  destruct (1000 <? Long.sub (getTimestamp ev) now); [by left|].
  destruct (getStateEvent a attr) as [last|]; [|by left].
  destruct (_ && _); [by left|].
  destruct (setValue a attr (getValue ev) (getTimestamp ev)) as [a'|ex] eqn:Hset.
  - right. by exists last, a'.
  - left. by destruct ex.
Qed.

Lemma processUpdate_stale ps now a attr ev nb st :
  deref a attr = Some st ->
  0 <= lastUpdateTimestamp st ->
  getTimestamp ev <= lastUpdateTimestamp st ->
  let r := processUpdate ps now a attr ev nb in
  (outcome r = Ignored EventTimeInFuture
   \/ outcome r = Ignored EventTimeOlderThanLastState)
  /\ invoked r = [] /\ update r = None /\ target r = Some a.
Proof.
  intros Hd H0 Hle. unfold processUpdate, getStateEvent. rewrite Hd. simpl.
  destruct (1000 <? Long.sub (getTimestamp ev) now); [by auto|].
  assert ((0 <=? lastUpdateTimestamp st) = true) as -> by lia.
  assert ((getTimestamp ev <=? lastUpdateTimestamp st) = true) as -> by lia.
  simpl. auto.
Qed.

(** ** Entry points *)

Lemma updateAttributeValue_cases store ps now ev :
  let r := updateAttributeValue store ps now ev in
  (invoked r = [] /\ update r = None
   /\ target r = find store (getEntityId ev) /\ outcome r <> Processed
   /\ forall ex, outcome r <> Ignored (ConstraintViolation ex))
  \/ (exists a st,
        find store (getEntityId ev) = Some a
        /\ isAgent (wellKnownType a) = false
        /\ attributes a !! getAttributeName ev = Some st
        /\ readOnly st = false
        /\ r = processUpdate ps now a (AssetAttributeView (getAttributeName ev))
                 ev false).
Proof.
  unfold updateAttributeValue.
  destruct (find store (getEntityId ev)) as [a|] eqn:Hf; [|by left].
  destruct (isAgent (wellKnownType a)) eqn:Hag; [by left|].
  unfold AssetAttributes_get. simpl.
  destruct (attributes a !! getAttributeName ev) as [st|] eqn:Hst; simpl;
    [|by left].
  unfold isReadOnly, deref. simpl. rewrite Hst.
  destruct (readOnly st) eqn:Hro; [by left|].
  right. by exists a, st.
Qed.

Lemma processSensorUpdate_cases store resolver ps now ev :
  let r := processSensorUpdate store resolver ps now ev in
  (invoked r = [] /\ update r = None
   /\ target r = find store (getEntityId ev) /\ outcome r <> Processed
   /\ forall ex, outcome r <> Ignored (ConstraintViolation ex))
  \/ (exists a st link pc,
        find store (getEntityId ev) = Some a
        /\ attributes a !! getAttributeName ev = Some st
        /\ agentLink st = Some link /\ resolver link = Some pc
        /\ r = processUpdate ps now a
                 (ThingAttributeView (getAttributeName ev) pc) ev true).
Proof.
  unfold processSensorUpdate.
  destruct (find store (getEntityId ev)) as [a|] eqn:Hf; [|by left].
  unfold AssetAttributes_get, ThingAttribute_get. simpl.
  destruct (attributes a !! getAttributeName ev) as [st|] eqn:Hst; simpl;
    [|by left].
  unfold deref. simpl. rewrite Hst. simpl.
  destruct (agentLink st) as [link|] eqn:Hl; simpl; [|by left].
  destruct (resolver link) as [pc|] eqn:Hr; simpl; [|by left].
  right. by exists a, st, link, pc.
Qed.

Lemma processorLoop_not_ignored ps : forall u why,
  outcome (processorLoop ps u) <> Ignored why.
Proof.
  induction ps as [|p rest IH]; intros u why; [done|].
  simpl. destruct (status (inspected (invoke p u))); simpl; try apply IH; done.
Qed.

Lemma processUpdate_rejected ps now a attr ev nb :
  let r := processUpdate ps now a attr ev nb in
  (exists why, outcome r = Ignored why) \/ update r = None ->
  invoked r = [] /\ update r = None /\ target r = Some a.
Proof.
  intros r Hrej.
  destruct (processUpdate_cases ps now a attr ev nb)
    as [(? & ? & ? & _) | (last & a' & _ & _ & Hr)]; [done|].
  exfalso. subst r. rewrite Hr in Hrej. unfold processUpdateChain in Hrej.
  destruct Hrej as [[why Hw] | Hn].
  - by apply processorLoop_not_ignored in Hw.
  - destruct (processorLoop_completed ps
                (newAssetUpdate a' attr (getValue last) (getTimestamp last) nb))
      as (u' & Hu & _).
    congruence.
Qed.

Lemma processUpdate_constraint ps now a attr ev nb ex :
  outcome (processUpdate ps now a attr ev nb) = Ignored (ConstraintViolation ex) ->
  setValue a attr (getValue ev) (getTimestamp ev) = SetValueThrows ex.
Proof.
  unfold processUpdate.
  destruct (1000 <? Long.sub (getTimestamp ev) now); [done|].
  destruct (getStateEvent a attr) as [last|]; [|done].
  destruct (_ && _); [done|].
  destruct (setValue a attr (getValue ev) (getTimestamp ev)) as [a'|e].
  - intros H. by apply processorLoop_not_ignored in H.
  - destruct e; simpl; intros H; try done. by injection H as <-.
Qed.

(** ** The future-timestamp check *)

Lemma Long_sub_exact a b : Long.inRange (a - b) -> Long.sub a b = a - b.
Proof.
  unfold Long.inRange, Long.MIN_VALUE, Long.MAX_VALUE, Long.sub, Long.wrap.
  intros H. rewrite Z.mod_small; lia.
Qed.

(** X10.  Where the subtraction does not overflow, the check rejects exactly
    the events more than 1000 ms ahead of the clock: an event 1000 ms ahead
    still passes it. *)
Lemma future_check_exact ps now a attr ev nb :
  Long.inRange (getTimestamp ev - now) ->
  (1000 < getTimestamp ev - now ->
   processUpdate ps now a attr ev nb = ignored (Some a) EventTimeInFuture)
  /\ (getTimestamp ev - now <= 1000 ->
      outcome (processUpdate ps now a attr ev nb) <> Ignored EventTimeInFuture).
Proof.
  intros Hr. unfold processUpdate. rewrite (Long_sub_exact _ _ Hr). split; intros H.
  - by assert ((1000 <? getTimestamp ev - now) = true) as -> by lia.
  - assert ((1000 <? getTimestamp ev - now) = false) as -> by lia.
    destruct (getStateEvent a attr) as [last|]; [|done].
    destruct (_ && _); [done|].
    destruct (setValue a attr (getValue ev) (getTimestamp ev)) as [a'|e].
    + apply processorLoop_not_ignored.
    + by destruct e.
Qed.

(** * The claims *)

(** C1.  Monotonicity.  Whenever the attribute's last recorded timestamp is
    at least 0 and the event's timestamp is not greater than it, the event is
    dropped (by the future-timestamp check or, failing that, by the ordering
    check): no consumer is called, no context is built, and the asset, hence
    the attribute's value and timestamp, is left as it was.  This holds for
    [processUpdate] and for both entry points.  In particular, once an event
    e1 with timestamp 100 has been accepted (by consumers that leave the asset
    alone), the attribute holds e1's value and the timestamp 100, and an event
    with timestamp 50, or e1 again, is dropped and leaves them in place. *)
Theorem stale_event_is_dropped :
  (forall ps now a attr ev nb st,
      deref a attr = Some st ->
      0 <= lastUpdateTimestamp st ->
      getTimestamp ev <= lastUpdateTimestamp st ->
      let r := processUpdate ps now a attr ev nb in
      (outcome r = Ignored EventTimeInFuture
       \/ outcome r = Ignored EventTimeOlderThanLastState)
      /\ invoked r = [] /\ update r = None /\ target r = Some a)
  /\ (forall store resolver ps now ev a st r,
      find store (getEntityId ev) = Some a ->
      attributes a !! getAttributeName ev = Some st ->
      0 <= lastUpdateTimestamp st ->
      getTimestamp ev <= lastUpdateTimestamp st ->
      r = updateAttributeValue store ps now ev
      \/ r = processSensorUpdate store resolver ps now ev ->
      invoked r = [] /\ update r = None /\ target r = Some a)
  /\ (forall ps now a0 attr e1 nb,
      getTimestamp e1 = 100 ->
      let r1 := processUpdate ps now a0 attr e1 nb in
      update r1 <> None ->
      Forall keepsAsset ps ->
      exists a1 st1,
        target r1 = Some a1
        /\ deref a1 attr = Some st1
        /\ currentValue st1 = getValue e1
        /\ lastUpdateTimestamp st1 = 100
        /\ forall now' e2 nb',
            getTimestamp e2 = 50 \/ e2 = e1 ->
            let r2 := processUpdate ps now' a1 attr e2 nb' in
            invoked r2 = [] /\ update r2 = None /\ target r2 = Some a1).
Proof.
  split; [|split].
  - intros. by apply processUpdate_stale with (st := st).
  - intros store resolver ps now ev a st r Hf Hst H0 Hle [-> | ->].
    + destruct (updateAttributeValue_cases store ps now ev)
        as [(? & ? & Ht & _) | (a' & st' & Hf' & _ & Hst' & _ & ->)].
      * by rewrite Ht, Hf.
      * rewrite Hf in Hf'. injection Hf' as <-.
        by apply (processUpdate_stale ps now a _ ev false st).
    + destruct (processSensorUpdate_cases store resolver ps now ev)
        as [(? & ? & Ht & _) | (a' & st' & link & pc & Hf' & Hst' & _ & _ & ->)].
      * by rewrite Ht, Hf.
      * rewrite Hf in Hf'. injection Hf' as <-.
        by apply (processUpdate_stale ps now a _ ev true st).
  - intros ps now a0 attr e1 nb Hts r1 Hacc Hkeep.
    destruct (processUpdate_cases ps now a0 attr e1 nb)
      as [(_ & Hnone & _) | (last & a1 & _ & Hset & Hr)]; [done|].
    destruct (setValue_ValueSet _ _ _ _ _ Hset) as (st & _ & _ & Hd).
    eexists a1, _. split; [|split; [exact Hd|]].
    { subst r1. rewrite Hr. unfold processUpdateChain.
      by rewrite processorLoop_keepsAsset. }
    simpl. split; [done|]. split; [done|].
    intros now' e2 nb' He2.
    eapply (processUpdate_stale ps now' a1 attr e2 nb'); [exact Hd|simpl; lia|].
    simpl. destruct He2 as [-> | ->]; lia.
Qed.

(** C2.  Escalation.  In every run of the chain, on every context and
    consumer list, if a call of a consumer throws [t] then that call is the
    last one (the consumers called are exactly those up to it), the context
    ends with status [COMPLETED], and the caller receives a
    [RuntimeException] whose message names the consumer and whose cause is
    [t].  The chain leaves the asset as the throwing consumer left it.  When
    the chain was started by [processUpdate], the attribute had been given
    the event's value and timestamp before the first consumer was called,
    and nothing restores the old ones: with consumers that leave the asset
    alone the asset is still the one validation produced. *)
Theorem consumer_failure_escalates :
  (forall ps u (i : nat) inv t,
      let r := processUpdateChain ps u in
      invoked r !! i = Some inv ->
      raised inv = Some t ->
      let u' := setStatus (setError (setStatus (returned inv) ERROR) t) COMPLETED in
      ps !! i = Some (processor inv)
      /\ accept (processor inv) (given inv) = (returned inv, Some t)
      /\ processor <$> invoked r = take (S i) ps
      /\ update r = Some u'
      /\ status u' = COMPLETED
      /\ outcome r
         = Thrown (RuntimeException
                     ("Processor " +:+ toString (processor inv) +:+ " error: "
                      +:+ AssetUpdate_toString u')
                     (Some t))
      /\ target r = Some (asset (returned inv)))
  /\ (forall ps now a attr ev nb (i : nat) inv t,
      let r := processUpdate ps now a attr ev nb in
      invoked r !! i = Some inv ->
      raised inv = Some t ->
      exists a' st first,
        setValue a attr (getValue ev) (getTimestamp ev) = ValueSet a'
        /\ deref a' attr = Some st
        /\ currentValue st = getValue ev
        /\ lastUpdateTimestamp st = getTimestamp ev
        /\ invoked r !! 0%nat = Some first
        /\ asset (given first) = a'
        /\ target r = Some (asset (returned inv))
        /\ (exists m, outcome r = Thrown (RuntimeException m (Some t)))
        /\ (Forall keepsAsset ps -> target r = Some a')).
Proof.
  assert (forall ps u (i : nat) inv t,
      let r := processUpdateChain ps u in
      invoked r !! i = Some inv ->
      raised inv = Some t ->
      let u' := setStatus (setError (setStatus (returned inv) ERROR) t) COMPLETED in
      ps !! i = Some (processor inv)
      /\ accept (processor inv) (given inv) = (returned inv, Some t)
      /\ processor <$> invoked r = take (S i) ps
      /\ update r = Some u'
      /\ status u' = COMPLETED
      /\ outcome r = Thrown (processorError (processor inv) u')
      /\ target r = Some (asset (returned inv))) as chain.
  { intros ps u i inv t r H Ht u'.
    assert (inspected inv = setError (setStatus (returned inv) ERROR) t) as Hi
      by by apply inspected_raised.
    destruct (processorLoop_stopped ps u i inv H) as (Hp & Ha & Hpre & Hu & Htg & Ho).
    { by rewrite Hi. }
    rewrite Ht in Ha. rewrite Hi in Hu, Ho.
    repeat split; try done. }
  split.
  - intros ps u i inv t r H Ht u'.
    destruct (chain ps u i inv t H Ht) as (? & ? & ? & ? & ? & Ho & ?).
    repeat split; try done.
  - intros ps now a attr ev nb i inv t r H Ht.
    destruct (processUpdate_cases ps now a attr ev nb)
      as [(Hnil & _) | (last & a' & _ & Hset & Hr)].
    { subst r. by rewrite Hnil in H. }
    destruct (setValue_ValueSet _ _ _ _ _ Hset) as (st & _ & _ & Hd).
    subst r. rewrite Hr in H |- *.
    destruct (chain _ _ i inv t H Ht) as (_ & _ & _ & _ & _ & Ho & Htg).
    assert (is_Some (invoked (processUpdateChain ps
              (newAssetUpdate a' attr (getValue last) (getTimestamp last) nb))
            !! 0%nat)) as [first Hfirst].
    { apply lookup_lt_is_Some. apply lookup_lt_Some in H. lia. }
    eexists a', _, first. split; [done|]. split; [exact Hd|].
    split; [done|]. split; [done|]. split; [done|].
    split. { by rewrite (processorLoop_first _ _ _ Hfirst). }
    split; [done|]. split; [by eexists|].
    intros Hk. unfold processUpdateChain. by rewrite processorLoop_keepsAsset.
Qed.

(** C3.  Short-circuit.  In every run of the chain, on every context and
    consumer list, if after a call the context's status is [HANDLED] (which
    only a consumer that returned can have caused), then that call is the
    last one, the context ends with status [COMPLETED], and the chain
    returns without an exception. *)
Theorem handled_short_circuits ps u (i : nat) inv :
  let r := processUpdateChain ps u in
  invoked r !! i = Some inv ->
  status (inspected inv) = HANDLED ->
  raised inv = None
  /\ status (returned inv) = HANDLED
  /\ ps !! i = Some (processor inv)
  /\ processor <$> invoked r = take (S i) ps
  /\ (exists u', update r = Some u' /\ status u' = COMPLETED
                 /\ u' = setStatus (returned inv) COMPLETED)
  /\ outcome r = Processed.
Proof.
  intros r H Hh.
  destruct (inspected_handled _ Hh) as (Hq & Hs).
  destruct (processorLoop_stopped ps u i inv H) as (Hp & _ & Hpre & Hu & _ & Ho).
  { by rewrite Hh. }
  unfold conclusion in Ho. rewrite Hh in Ho.
  rewrite (inspected_quiet _ Hq) in Hu.
  repeat split; try done. by eexists.
Qed.

(** C4.  Agent edit rejection.  A southbound update whose asset is found and
    is of the agent type throws [IllegalArgumentException] to the caller; no
    consumer is called, no context is built and the asset is left as
    stored. *)
Theorem agent_update_is_refused store ps now ev a :
  find store (getEntityId ev) = Some a ->
  wellKnownType a = AGENT ->
  let r := updateAttributeValue store ps now ev in
  outcome r
  = Thrown (IllegalArgumentException
              ("Agent attributes can not be updated individually, update the whole asset instead: "
               +:+ ServerAsset_toString a))
  /\ invoked r = [] /\ update r = None /\ target r = Some a.
Proof.
  intros Hf Ht. unfold updateAttributeValue. by rewrite Hf, Ht.
Qed.

(** C5.  Rejections have no side effect.  Through either entry point, a
    submission that ends ignored, or for which no context is built (the
    refusal of an agent update included), calls no consumer and leaves the
    asset, hence every attribute's value and timestamp, as stored.  A
    rejection for a constraint violation is the failure of the attempt to set
    the event's value on the attribute. *)
Theorem rejection_has_no_side_effect store resolver ps now ev r :
  r = updateAttributeValue store ps now ev
  \/ r = processSensorUpdate store resolver ps now ev ->
  (exists why, outcome r = Ignored why) \/ update r = None ->
  invoked r = [] /\ update r = None
  /\ target r = find store (getEntityId ev)
  /\ forall ex, outcome r = Ignored (ConstraintViolation ex) ->
       exists a attr,
         find store (getEntityId ev) = Some a
         /\ getName attr = getAttributeName ev
         /\ setValue a attr (getValue ev) (getTimestamp ev) = SetValueThrows ex.
Proof.
  intros [-> | ->] Hrej.
  - destruct (updateAttributeValue_cases store ps now ev)
      as [(Hi & Hu & Ht & _ & Hc) | (a & st & Hf & _ & _ & _ & Hr)].
    + repeat split; try done. intros ex Hex. by apply Hc in Hex.
    + rewrite Hr in Hrej |- *.
      destruct (processUpdate_rejected _ _ _ _ _ _ Hrej) as (? & ? & ?).
      rewrite Hf. repeat split; try done.
      intros ex Hex. apply processUpdate_constraint in Hex.
      eexists a, _. split; [done|]. split; [|exact Hex]. done.
  - destruct (processSensorUpdate_cases store resolver ps now ev)
      as [(Hi & Hu & Ht & _ & Hc) | (a & st & link & pc & Hf & _ & _ & _ & Hr)].
    + repeat split; try done. intros ex Hex. by apply Hc in Hex.
    + rewrite Hr in Hrej |- *.
      destruct (processUpdate_rejected _ _ _ _ _ _ Hrej) as (? & ? & ?).
      rewrite Hf. repeat split; try done.
      intros ex Hex. apply processUpdate_constraint in Hex.
      eexists a, _. split; [done|]. split; [|exact Hex]. done.
Qed.

(** C6.  A northbound update whose entity id resolves to no asset is
    ignored: the method returns (no exception reaches the caller), no
    consumer is called, no context is built and there is no asset to
    change. *)
Theorem sensor_update_without_asset_is_dropped store resolver ps now ev :
  find store (getEntityId ev) = None ->
  let r := processSensorUpdate store resolver ps now ev in
  outcome r = Ignored NotLinkedToAgent
  /\ invoked r = [] /\ update r = None /\ target r = None.
Proof.
  intros Hf. unfold processSensorUpdate. by rewrite Hf.
Qed.

(** C7, as amended.  A southbound update that targets an existing attribute
    flagged read-only calls no consumer, builds no context and leaves the
    asset as stored.  It is ignored without an exception when the asset is
    not of the agent type; when it is, the agent check, which comes first,
    throws [IllegalArgumentException]. *)
Theorem read_only_attribute_is_never_written store ps now ev a st :
  find store (getEntityId ev) = Some a ->
  attributes a !! getAttributeName ev = Some st ->
  readOnly st = true ->
  let r := updateAttributeValue store ps now ev in
  invoked r = [] /\ update r = None /\ target r = Some a
  /\ (wellKnownType a <> AGENT -> outcome r = Ignored AttributeReadOnly)
  /\ (wellKnownType a = AGENT ->
      exists m, outcome r = Thrown (IllegalArgumentException m)).
Proof.
  intros Hf Hst Hro. unfold updateAttributeValue. rewrite Hf.
  destruct (wellKnownType a) eqn:Ht; simpl.
  - repeat split; try done. intros _. by eexists.
  - unfold AssetAttributes_get. simpl. rewrite Hst. simpl.
    unfold isReadOnly, deref. simpl. by rewrite Hst, Hro.
  - unfold AssetAttributes_get. simpl. rewrite Hst. simpl.
    unfold isReadOnly, deref. simpl. by rewrite Hst, Hro.
Qed.

(** C9, as amended.  If a consumer returns, without throwing, a context
    whose status is [ERROR], the chain stops at that call, completes the
    context and throws a [RuntimeException] to the caller whose cause is the
    context's error field as the consumer left it: the chain itself attaches
    an error only when a consumer throws, so the cause is absent when that
    field is empty. *)
Theorem error_status_escalates ps u (i : nat) inv :
  let r := processUpdateChain ps u in
  invoked r !! i = Some inv ->
  raised inv = None ->
  status (returned inv) = ERROR ->
  let u' := setStatus (returned inv) COMPLETED in
  let m := "Processor " +:+ toString (processor inv) +:+ " error: "
           +:+ AssetUpdate_toString u' in
  ps !! i = Some (processor inv)
  /\ processor <$> invoked r = take (S i) ps
  /\ update r = Some u'
  /\ error (inspected inv) = error (returned inv)
  /\ outcome r = Thrown (RuntimeException m (error (returned inv)))
  /\ (error (returned inv) = None ->
      outcome r = Thrown (RuntimeException m None)).
Proof.
  intros r H Hq He u' m.
  pose proof (inspected_quiet _ Hq) as Hi.
  destruct (processorLoop_stopped ps u i inv H) as (Hp & _ & Hpre & Hu & _ & Ho).
  { by rewrite Hi, He. }
  unfold conclusion in Ho. rewrite Hi in Hu, Ho. rewrite He in Ho.
  repeat split; try done.
  - by rewrite Hi.
  - intros Hn. subst r m. unfold processUpdateChain. rewrite Ho.
    unfold processorError. simpl. by rewrite Hn.
Qed.

(** C10.  A throw takes precedence over the status.  Whatever status the
    consumer had set on the context before throwing, [HANDLED] included, the
    context the loop inspects has status [ERROR] and the thrown exception
    attached; the call is the last one and the chain ends by throwing to the
    caller, never by returning. *)
Theorem throw_overrides_status ps u (i : nat) inv t :
  let r := processUpdateChain ps u in
  invoked r !! i = Some inv ->
  raised inv = Some t ->
  status (inspected inv) = ERROR
  /\ error (inspected inv) = Some t
  /\ length (invoked r) = S i
  /\ (exists m, outcome r = Thrown (RuntimeException m (Some t)))
  /\ outcome r <> Processed.
Proof.
  intros r H Ht.
  pose proof (inspected_raised _ _ Ht) as Hi.
  destruct (processorLoop_lookup ps u i inv H) as (_ & _ & Hstop).
  destruct Hstop as (Hl & _ & _ & Ho); [by rewrite Hi|].
  unfold conclusion in Ho. rewrite Hi in Ho |- *. simpl in Ho.
  subst r. unfold processUpdateChain. rewrite Ho.
  repeat split; try done. by eexists.
Qed.

(** * Further properties of the service *)

(** ** The consumer loop, call by call *)

Lemma processorLoop_step p rest u :
  let i := invoke p u in
  (stops (status (inspected i)) = true
   /\ processorLoop (p :: rest) u
      = mkResult (conclusion p (inspected i)) [i]
          (Some (setStatus (inspected i) COMPLETED))
          (Some (asset (returned i))))
  \/ (stops (status (inspected i)) = false
      /\ processorLoop (p :: rest) u = after i (processorLoop rest (inspected i))).
Proof.
  intros i. subst i. destruct (stops (status (inspected (invoke p u)))) eqn:Hs.
  - left. split; [done|]. unfold conclusion.
    destruct (status (inspected (invoke p u))) eqn:Hst; try done.
    + by rewrite processorLoop_handled.
    + by rewrite processorLoop_error.
  - right. split; [done|]. by apply processorLoop_continue.
Qed.

Lemma stops_true s : stops s = true -> s = HANDLED \/ s = ERROR.
Proof. destruct s; simpl; auto; discriminate. Qed.

(** The context the loop holds after the calls of a trace. *)
Lemma last_inspected_cons i (tr : list Invocation) u :
  default u (inspected <$> last (i :: tr))
  = default (inspected i) (inspected <$> last tr).
Proof. rewrite last_cons. by destruct (last tr). Qed.

(** X1.  Every run of the chain ends in exactly one of three ways, and in
    each the context is completed.  Either every processor was called and no
    call left a stopping status: the chain returns.  Or the last call left
    [HANDLED]: the chain returns.  Or the last call left [ERROR]: the chain
    throws a [RuntimeException] naming that processor, with the context's
    error as cause.  Nothing else reaches the caller. *)
Theorem chain_ends_in_one_of_three_ways ps u :
  let r := processUpdateChain ps u in
  exists u',
    update r = Some u' /\ status u' = COMPLETED /\ target r = Some (asset u')
    /\ ((processor <$> invoked r = ps
         /\ Forall (fun i => stops (status (inspected i)) = false) (invoked r)
         /\ u' = setStatus (default u (inspected <$> last (invoked r))) COMPLETED
         /\ outcome r = Processed)
        \/ (exists i, last (invoked r) = Some i
                      /\ status (inspected i) = HANDLED
                      /\ u' = setStatus (inspected i) COMPLETED
                      /\ outcome r = Processed)
        \/ (exists i, last (invoked r) = Some i
                      /\ status (inspected i) = ERROR
                      /\ u' = setStatus (inspected i) COMPLETED
                      /\ outcome r
                         = Thrown (RuntimeException
                                     ("Processor " +:+ toString (processor i)
                                      +:+ " error: " +:+ AssetUpdate_toString u')
                                     (error (inspected i))))).
Proof.
  unfold processUpdateChain. revert u.
  induction ps as [|p rest IH]; intros u.
  - eexists. repeat split. left. by repeat split.
  - destruct (processorLoop_step p rest u) as [(Hs & ->) | (Hs & ->)].
    + eexists. split; [done|]. split; [done|].
      split; [simpl; by rewrite inspected_asset|].
      right. unfold conclusion. simpl.
      destruct (stops_true _ Hs) as [Hh | He].
      * left. exists (invoke p u). by rewrite Hh.
      * right. exists (invoke p u). rewrite He.
        by rewrite invoke_processor.
    + destruct (IH (inspected (invoke p u)))
        as (u' & Hu & Hst & Htg & Hcases).
      exists u'. split; [done|]. split; [done|]. split; [done|].
      unfold after. cbn [invoked outcome update target].
      rewrite fmap_cons, last_inspected_cons.
      destruct Hcases as [(Hp & Hf & Hu' & Ho) | [(i & Hl & ?) | (i & Hl & ?)]].
      * left. rewrite invoke_processor, Hp. repeat split; try done.
        by constructor.
      * right; left. exists i. split; [|done]. rewrite last_cons. by rewrite Hl.
      * right; right. exists i. split; [|done]. rewrite last_cons. by rewrite Hl.
Qed.

(** X2.  The chain calls processors in list order, each at most once and
    none skipped: the processors called are an initial segment of the
    list. *)
Theorem calls_follow_processor_order ps u :
  let r := processUpdateChain ps u in
  (length (invoked r) <= length ps)%nat
  /\ processor <$> invoked r = take (length (invoked r)) ps.
Proof.
  intros r. subst r. unfold processUpdateChain.
  pose proof (processorLoop_prefix ps u) as H. split; [|done].
  apply (f_equal length) in H.
  rewrite length_fmap, length_take in H. lia.
Qed.

(** X3.  The context is threaded through the calls: the first call is given
    the context the chain was started on, and every later call is given the
    context exactly as the loop inspected it after the previous call (with
    whatever that consumer changed); a call that is followed by another one
    did not leave a stopping status. *)
Theorem context_is_threaded :
  (forall ps u i0,
      invoked (processUpdateChain ps u) !! 0%nat = Some i0 -> given i0 = u)
  /\ (forall ps u (n : nat) i j,
      invoked (processUpdateChain ps u) !! n = Some i ->
      invoked (processUpdateChain ps u) !! S n = Some j ->
      given j = inspected i /\ stops (status (inspected i)) = false).
Proof.
  unfold processUpdateChain. split.
  - intros ps u i0. apply processorLoop_first.
  - induction ps as [|p rest IH]; intros u n i j Hi Hj; [done|].
    destruct (processorLoop_step p rest u) as [(Hs & E) | (Hs & E)];
      rewrite E in Hi, Hj; simpl in Hi, Hj; [done|].
    destruct n as [|n]; simpl in Hi, Hj.
    + injection Hi as <-. split; [|done].
      by apply processorLoop_first in Hj.
    + by apply (IH _ _ _ _ Hi Hj).
Qed.

(** X4.  Processors listed after the call that stopped the loop have no
    influence: replacing them by any others gives the same result. *)
Theorem uncalled_consumers_do_not_matter ps u (n : nat) i tail :
  invoked (processUpdateChain ps u) !! n = Some i ->
  stops (status (inspected i)) = true ->
  processUpdateChain (take (S n) ps ++ tail) u = processUpdateChain ps u.
Proof.
  unfold processUpdateChain. revert u n.
  induction ps as [|p rest IH]; intros u n Hi Hs; [done|].
  destruct (processorLoop_step p rest u) as [(Hs' & E) | (Hs' & E)];
    rewrite E in Hi |- *; simpl in Hi.
  - destruct n as [|n]; [|done].
    change (take 1 (p :: rest) ++ tail) with (p :: tail).
    destruct (processorLoop_step p tail u) as [(_ & ->) | (? & _)];
      [done|congruence].
  - destruct n as [|n]; simpl in Hi.
    + injection Hi as <-. congruence.
    + change (take (S (S n)) (p :: rest) ++ tail)
        with (p :: (take (S n) rest ++ tail)).
      destruct (processorLoop_step p (take (S n) rest ++ tail) u)
        as [(? & _) | (_ & ->)]; [congruence|].
      by rewrite (IH _ _ Hi Hs).
Qed.

(** X5.  Chains compose: when the run of [ps1] made no call that left a
    stopping status, running [ps1 ++ ps2] is running [ps1] and then [ps2] on
    the context [ps1] left. *)
Theorem chain_of_appended_processors ps1 ps2 u :
  let r1 := processUpdateChain ps1 u in
  Forall (fun i => stops (status (inspected i)) = false) (invoked r1) ->
  let r2 := processUpdateChain ps2
              (default u (inspected <$> last (invoked r1))) in
  processUpdateChain (ps1 ++ ps2) u
  = mkResult (outcome r2) (invoked r1 ++ invoked r2) (update r2) (target r2).
Proof.
  unfold processUpdateChain. revert u.
  induction ps1 as [|p rest IH]; intros u Hall.
  - simpl. by destruct (processorLoop ps2 u).
  - change ((p :: rest) ++ ps2) with (p :: (rest ++ ps2)).
    destruct (processorLoop_step p rest u) as [(Hs & E) | (Hs & E)];
      rewrite E in Hall |- *; unfold after in *;
      cbn [invoked outcome update target] in *.
    + inversion Hall; congruence.
    + inversion Hall as [|? ? _ Hrest]; subst.
      destruct (processorLoop_step p (rest ++ ps2) u)
        as [(? & _) | (_ & ->)]; [congruence|].
      rewrite last_inspected_cons.
      rewrite (IH _ Hrest). done.
Qed.

(** X6.  If the chain is started on a context whose status does not stop
    the loop, and no processor of the list turns such a context into a
    stopped one (by throwing, or by leaving [HANDLED] or [ERROR]), then every
    processor is called and the chain returns with the context completed. *)
Theorem chain_runs_through_when_no_consumer_stops ps u :
  stops (status u) = false ->
  Forall (fun p => forall c,
              stops (status c) = false ->
              stops (status (inspected (invoke p c))) = false) ps ->
  let r := processUpdateChain ps u in
  processor <$> invoked r = ps
  /\ outcome r = Processed
  /\ update r = Some (setStatus (default u (inspected <$> last (invoked r)))
                                COMPLETED).
Proof.
  unfold processUpdateChain. revert u.
  induction ps as [|p rest IH]; intros u Hu Hall; [done|].
  inversion Hall as [|? ? Hp Hrest]; subst.
  destruct (processorLoop_step p rest u) as [(Hs & _) | (Hs & ->)].
  { rewrite (Hp u Hu) in Hs. done. }
  destruct (IH (inspected (invoke p u)) Hs Hrest) as (Hpre & Ho & Hupd).
  unfold after. cbn [invoked outcome update target].
  rewrite fmap_cons, last_inspected_cons, invoke_processor, Hpre. done.
Qed.


Lemma processorLoop_calls_first p rest u :
  invoked (processorLoop (p :: rest) u) <> [].
Proof. by destruct (processorLoop_step p rest u) as [(_ & ->) | (_ & ->)]. Qed.

(** ** Validation *)

(** X7.  What makes validation accept.  If the attribute exists, the event
    is not rejected as lying in the future, the attribute was never set
    (negative timestamp) or the event is strictly newer than its last
    update, and the value satisfies the attribute's constraints, then the
    chain is run on a context that carries the asset with the attribute set
    to the event's value and timestamp (flags, link and all other attributes
    as before), the value and timestamp the attribute had before, and the
    direction flag as given. *)
Theorem valid_event_is_accepted ps now a attr ev nb st :
  deref a attr = Some st ->
  Long.sub (getTimestamp ev) now <= 1000 ->
  lastUpdateTimestamp st < 0 \/ lastUpdateTimestamp st < getTimestamp ev ->
  satisfiesConstraints st (getValue ev) = true ->
  processUpdate ps now a attr ev nb
  = processUpdateChain ps
      (newAssetUpdate
         (mkServerAsset (assetId a) (wellKnownType a)
            (<[getName attr := mkAssetAttribute (getValue ev) (getTimestamp ev)
                                 (readOnly st) (agentLink st)]> (attributes a)))
         attr (currentValue st) (lastUpdateTimestamp st) nb).
Proof.
  intros Hd Hfut Hfresh Hok.
  unfold processUpdate, getStateEvent, setValue. rewrite Hd. simpl.
  assert ((1000 <? Long.sub (getTimestamp ev) now) = false) as -> by lia.
  assert ((0 <=? lastUpdateTimestamp st)
          && (getTimestamp ev <=? lastUpdateTimestamp st) = false) as ->.
  { apply andb_false_iff. destruct Hfresh; [left|right]; lia. }
  by rewrite Hok.
Qed.

(** X8.  While an attribute's timestamp is negative (never set) the
    ordering check is not applied: no event is rejected as older than the
    last state, whatever its timestamp. *)
Theorem never_set_attribute_skips_ordering ps now a attr ev nb st :
  deref a attr = Some st ->
  lastUpdateTimestamp st < 0 ->
  outcome (processUpdate ps now a attr ev nb)
  <> Ignored EventTimeOlderThanLastState.
Proof.
  intros Hd Hneg. unfold processUpdate, getStateEvent. rewrite Hd. simpl.
  destruct (1000 <? Long.sub (getTimestamp ev) now); [done|].
  assert ((0 <=? lastUpdateTimestamp st) = false) as -> by lia. simpl.
  destruct (setValue a attr (getValue ev) (getTimestamp ev)) as [a'|ex].
  - apply processorLoop_not_ignored.
  - by destruct ex.
Qed.

(** X9.  Once an attribute has a timestamp of at least 0, [processUpdate]
    never moves it back.  With consumers that leave the asset alone, either
    the call changes nothing and calls no consumer, or the attribute ends
    with the event's value and a strictly greater timestamp, the event's. *)
Theorem timestamp_never_goes_back ps now a attr ev nb st :
  deref a attr = Some st ->
  0 <= lastUpdateTimestamp st ->
  Forall keepsAsset ps ->
  let r := processUpdate ps now a attr ev nb in
  exists a' st',
    target r = Some a' /\ deref a' attr = Some st'
    /\ ((a' = a /\ st' = st /\ invoked r = [] /\ update r = None)
        \/ (lastUpdateTimestamp st < lastUpdateTimestamp st'
            /\ lastUpdateTimestamp st' = getTimestamp ev
            /\ currentValue st' = getValue ev
            /\ update r <> None)).
Proof.
  intros Hd H0 Hkeep r. subst r.
  unfold processUpdate, getStateEvent. rewrite Hd. simpl.
  destruct (1000 <? Long.sub (getTimestamp ev) now);
    [exists a, st; split; [done|]; split; [done|]; by left|].
  destruct ((0 <=? lastUpdateTimestamp st)
            && (getTimestamp ev <=? lastUpdateTimestamp st)) eqn:Hstale;
    [exists a, st; split; [done|]; split; [done|]; by left|].
  apply andb_false_iff in Hstale.
  assert (lastUpdateTimestamp st < getTimestamp ev) as Hlt
    by (destruct Hstale; lia).
  destruct (setValue a attr (getValue ev) (getTimestamp ev)) as [a'|ex] eqn:Hset.
  - destruct (setValue_ValueSet _ _ _ _ _ Hset) as (st0 & Hd0 & _ & Hd').
    eexists a', _. unfold processUpdateChain.
    rewrite processorLoop_keepsAsset by done.
    split; [done|]. split; [exact Hd'|]. right. simpl.
    repeat split; try done.
    match goal with |- update (processorLoop ps ?c) <> None =>
      destruct (processorLoop_completed ps c) as (u' & -> & _) end.
    done.
  - exists a, st.
    destruct ex; (split; [done|]; split; [done|]; by left).
Qed.

Lemma processUpdate_future ps now a attr ev nb :
  outcome (processUpdate ps now a attr ev nb) = Ignored EventTimeInFuture ->
  1000 < Long.sub (getTimestamp ev) now.
Proof.
  unfold processUpdate.
  destruct (Z.ltb_spec 1000 (Long.sub (getTimestamp ev) now)); [done|].
  destruct (getStateEvent a attr) as [last|]; [|done].
  destruct (_ && _); [done|].
  destruct (setValue a attr (getValue ev) (getTimestamp ev)) as [a'|e].
  - intros H'. by apply processorLoop_not_ignored in H'.
  - by destruct e.
Qed.

(** X11.  On a clock that is not negative, the overflow of the subtraction
    cannot let a future event through: every event more than 1000 ms ahead
    of the clock is ignored as lying in the future.  Conversely an event
    ignored for that reason is either more than 1000 ms ahead, or so far in
    the past that [timestamp - now] falls below [Long.MIN_VALUE]. *)
Theorem future_events_rejected_on_positive_clock ps now a attr ev nb :
  Long.inRange (getTimestamp ev) ->
  Long.inRange now ->
  0 <= now ->
  (1000 < getTimestamp ev - now ->
   processUpdate ps now a attr ev nb = ignored (Some a) EventTimeInFuture)
  /\ (outcome (processUpdate ps now a attr ev nb) = Ignored EventTimeInFuture ->
      1000 < getTimestamp ev - now
      \/ getTimestamp ev - now < Long.MIN_VALUE).
Proof.
  intros Hts Hnow H0. split.
  - intros Hf.
    assert (Long.inRange (getTimestamp ev - now)) as Hr.
    { unfold Long.inRange, Long.MIN_VALUE, Long.MAX_VALUE in *. lia. }
    unfold processUpdate. rewrite (Long_sub_exact _ _ Hr).
    by assert ((1000 <? getTimestamp ev - now) = true) as -> by lia.
  - intros Hf. apply processUpdate_future in Hf.
    destruct (Z.lt_ge_cases (getTimestamp ev - now) Long.MIN_VALUE) as [|Hge];
      [by right|left].
    assert (Long.inRange (getTimestamp ev - now)) as Hr.
    { unfold Long.inRange, Long.MIN_VALUE, Long.MAX_VALUE in *. lia. }
    by rewrite (Long_sub_exact _ _ Hr) in Hf.
Qed.

(** ** Entry points *)

(** X12.  A southbound update whose asset is not found, or whose attribute
    does not exist on a (non-agent) asset, is ignored with the matching
    diagnostic: the method returns, nothing is called and the asset, if any,
    is as stored. *)
Theorem southbound_missing_target_is_ignored store ps now ev :
  let r := updateAttributeValue store ps now ev in
  (find store (getEntityId ev) = None ->
   r = ignored None AssetNotFound)
  /\ (forall a,
      find store (getEntityId ev) = Some a ->
      wellKnownType a <> AGENT ->
      attributes a !! getAttributeName ev = None ->
      r = ignored (Some a) AttributeNotFound).
Proof.
  unfold updateAttributeValue. split.
  - by intros ->.
  - intros a -> Hna Hnone.
    assert (isAgent (wellKnownType a) = false) as ->
      by (by destruct (wellKnownType a)).
    unfold AssetAttributes_get. simpl. by rewrite Hnone.
Qed.



Lemma processUpdate_accepted_iff ps now a attr ev nb st :
  deref a attr = Some st ->
  update (processUpdate ps now a attr ev nb) <> None
  <-> Long.sub (getTimestamp ev) now <= 1000
      /\ (lastUpdateTimestamp st < 0 \/ lastUpdateTimestamp st < getTimestamp ev)
      /\ satisfiesConstraints st (getValue ev) = true.
Proof.
  intros Hd. unfold processUpdate, getStateEvent, setValue. rewrite Hd. simpl.
  destruct (Z.ltb_spec 1000 (Long.sub (getTimestamp ev) now));
    [split; [done|lia]|].
  destruct (Z.leb_spec 0 (lastUpdateTimestamp st));
    destruct (Z.leb_spec (getTimestamp ev) (lastUpdateTimestamp st)); simpl;
    try (split; [done|lia]);
    (destruct (satisfiesConstraints st (getValue ev));
     [|split; [done|by intros (_ & _ & ?)]]);
    (split; [intros _; repeat split; lia|intros _]);
    match goal with |- update (processUpdateChain ps ?c) <> None =>
      destruct (processorLoop_completed ps c) as (u' & Hu & _);
      unfold processUpdateChain; by rewrite Hu end.
Qed.

(** X14.  Northbound updates are restricted neither by the read-only flag
    nor by the asset's type.  Whenever the asset is found, the attribute
    exists and its agent link resolves, a sensor update that passes
    validation runs the chain on a context marked northbound that carries
    the [ThingAttribute]: also for a read-only attribute, also on an agent
    asset. *)
Theorem northbound_ignores_read_only_and_type store resolver ps now ev
    a st link pc :
  find store (getEntityId ev) = Some a ->
  attributes a !! getAttributeName ev = Some st ->
  agentLink st = Some link ->
  resolver link = Some pc ->
  Long.sub (getTimestamp ev) now <= 1000 ->
  lastUpdateTimestamp st < 0 \/ lastUpdateTimestamp st < getTimestamp ev ->
  satisfiesConstraints st (getValue ev) = true ->
  processSensorUpdate store resolver ps now ev
  = processUpdateChain ps
      (newAssetUpdate
         (mkServerAsset (assetId a) (wellKnownType a)
            (<[getAttributeName ev :=
                 mkAssetAttribute (getValue ev) (getTimestamp ev)
                   (readOnly st) (agentLink st)]> (attributes a)))
         (ThingAttributeView (getAttributeName ev) pc)
         (currentValue st) (lastUpdateTimestamp st) true).
Proof.
  intros Hf Hst Hl Hr Hfut Hfresh Hok.
  unfold processSensorUpdate. rewrite Hf.
  unfold AssetAttributes_get, ThingAttribute_get. simpl. rewrite Hst. simpl.
  unfold deref. simpl. rewrite Hst. simpl. rewrite Hl. simpl. rewrite Hr. simpl.
  unfold processUpdate, getStateEvent, setValue, deref. simpl. rewrite Hst. simpl.
  assert ((1000 <? Long.sub (getTimestamp ev) now) = false) as -> by lia.
  assert ((0 <=? lastUpdateTimestamp st)
          && (getTimestamp ev <=? lastUpdateTimestamp st) = false) as ->.
  { apply andb_false_iff. destruct Hfresh; [left|right]; lia. }
  by rewrite Hok, Hl.
Qed.

(** X15.  On a freshly initialised service the chain calls the rules
    service first, for every context, and then the agent, storage and
    datapoint services in this order, as far as it gets: the storage service
    is reached only past the rules and agent services, the datapoint service
    only past all three. *)
Theorem initialised_chain_calls_services_in_order
    rulesService agentService assetStorageService assetDatapointService u :
  let services :=
    [rulesService; agentService; assetStorageService; assetDatapointService] in
  let r := processUpdateChain
             (init [] rulesService agentService assetStorageService
                   assetDatapointService) u in
  exists n : nat,
    (1 <= n <= 4)%nat /\ processor <$> invoked r = take n services.
Proof.
  intros services r. exists (length (invoked r)). subst r services.
  unfold processUpdateChain, init. simpl app.
  pose proof (processorLoop_prefix
                [rulesService; agentService; assetStorageService;
                 assetDatapointService] u) as Hpre.
  split; [|done].
  pose proof (processorLoop_calls_first rulesService
                [agentService; assetStorageService; assetDatapointService] u)
    as Hne.
  apply (f_equal length) in Hpre. rewrite length_fmap, length_take in Hpre.
  simpl in Hpre.
  destruct (invoked _); [done|]. simpl in *. lia.
Qed.

(** X16.  The acceptance criterion of [updateAttributeValue].  A southbound
    update gets a context, and so reaches the chain, exactly when the asset
    is found and is not an agent, the attribute exists and is not read-only,
    the event is not rejected as lying in the future, the attribute was
    never set or the event is strictly newer than its last update, and the
    value satisfies the attribute's constraints. *)
Theorem southbound_acceptance_criterion store ps now ev :
  update (updateAttributeValue store ps now ev) <> None
  <-> exists a st,
        find store (getEntityId ev) = Some a
        /\ wellKnownType a <> AGENT
        /\ attributes a !! getAttributeName ev = Some st
        /\ readOnly st = false
        /\ Long.sub (getTimestamp ev) now <= 1000
        /\ (lastUpdateTimestamp st < 0
            \/ lastUpdateTimestamp st < getTimestamp ev)
        /\ satisfiesConstraints st (getValue ev) = true.
Proof.
  unfold updateAttributeValue.
  destruct (find store (getEntityId ev)) as [a|];
    [|split; [done|by intros (? & ? & ? & _)]].
  destruct (wellKnownType a) eqn:Ht; simpl;
    try (split; [done|intros (? & ? & [= <-] & Hna & _); congruence]).
  - unfold AssetAttributes_get. simpl.
    destruct (attributes a !! getAttributeName ev) as [st|] eqn:Hst; simpl;
      [|split; [done|intros (? & ? & [= <-] & _ & ? & _); congruence]].
    unfold isReadOnly, deref. simpl. rewrite Hst.
    destruct (readOnly st) eqn:Hro;
      [split; [done|intros (? & ? & [= <-] & _ & ? & ? & _); congruence]|].
    rewrite (processUpdate_accepted_iff ps now a _ ev false st) by done.
    split.
    + intros (? & ? & ?). exists a, st. rewrite Ht. by repeat split.
    + intros (? & st' & [= <-] & _ & Hst' & _ & ? & ? & ?).
      rewrite Hst in Hst'. injection Hst' as <-. done.
  - unfold AssetAttributes_get. simpl.
    destruct (attributes a !! getAttributeName ev) as [st|] eqn:Hst; simpl;
      [|split; [done|intros (? & ? & [= <-] & _ & ? & _); congruence]].
    unfold isReadOnly, deref. simpl. rewrite Hst.
    destruct (readOnly st) eqn:Hro;
      [split; [done|intros (? & ? & [= <-] & _ & ? & ? & _); congruence]|].
    rewrite (processUpdate_accepted_iff ps now a _ ev false st) by done.
    split.
    + intros (? & ? & ?). exists a, st. rewrite Ht. by repeat split.
    + intros (? & st' & [= <-] & _ & Hst' & _ & ? & ? & ?).
      rewrite Hst in Hst'. injection Hst' as <-. done.
Qed.

(** X17.  Which diagnostic validation gives.  For an existing attribute,
    the event is ignored as lying in the future exactly when the wrapped
    difference [timestamp - now] exceeds 1000; as older than the last state
    exactly when it passes that check, the attribute's timestamp is at least
    0 and the event's is not greater; and for a constraint violation exactly
    when it passes both checks and the value does not satisfy the
    attribute's constraints.  So the checks are tried in this order and the
    value is looked at last. *)
Theorem validation_diagnostics ps now a attr ev nb st :
  deref a attr = Some st ->
  let r := processUpdate ps now a attr ev nb in
  let future := 1000 < Long.sub (getTimestamp ev) now in
  let stale := 0 <= lastUpdateTimestamp st
               /\ getTimestamp ev <= lastUpdateTimestamp st in
  (outcome r = Ignored EventTimeInFuture <-> future)
  /\ (outcome r = Ignored EventTimeOlderThanLastState <-> ~ future /\ stale)
  /\ ((exists ex, outcome r = Ignored (ConstraintViolation ex))
      <-> ~ future /\ ~ stale
          /\ satisfiesConstraints st (getValue ev) = false).
Proof.
  intros Hd. unfold processUpdate, getStateEvent, setValue. rewrite Hd. simpl.
  destruct (Z.ltb_spec 1000 (Long.sub (getTimestamp ev) now)) as [Hf|Hf];
    [|destruct (Z.leb_spec 0 (lastUpdateTimestamp st)) as [H0|H0];
      destruct (Z.leb_spec (getTimestamp ev) (lastUpdateTimestamp st))
        as [Hle|Hle]; simpl;
      try destruct (satisfiesConstraints st (getValue ev)) eqn:Hok; simpl];
    (split; [|split]); (split; [intros Hi|intros Hc]);
    repeat match goal with
      | H : _ /\ _ |- _ => destruct H
      | H : exists _, _ |- _ => destruct H
      | H : outcome (processUpdateChain _ _) = Ignored _ |- _ =>
          by apply processorLoop_not_ignored in H
      end;
    try done; try lia; try (repeat split; lia); try by eexists.
  all: try (repeat split; try lia; done).
Qed.

End Pipeline.

(** * The claims on concrete runs

    Values are integers that an attribute accepts when they are not
    negative; protocol configurations are strings. *)

Local Abbreviation nonNegative := (fun (_ : AssetAttribute Z) (v : Z) => 0 <=? v).
Local Abbreviation assetText := (fun _ : ServerAsset Z => "asset").
Local Abbreviation updateText := (fun _ : AssetUpdate Z string => "update").
Local Abbreviation submitUser :=
  (updateAttributeValue Z string nonNegative assetText updateText).
Local Abbreviation submitSensor :=
  (processSensorUpdate Z string nonNegative updateText).
Local Abbreviation validate := (processUpdate Z string nonNegative updateText).
Local Abbreviation chain := (processUpdateChain Z string updateText).
Local Abbreviation thermometer := (device Z THING 0 (-1) false None).
Local Abbreviation diskFull := (OtherThrowable "IOException" "disk full").

(** C1 on the spec's scenario: a reading with timestamp 100 is accepted, a
    later one with timestamp 50 is dropped. *)
Lemma stale_event_is_dropped_witness :
  let e1 := reading Z 21 100 in
  let e2 := reading Z 22 50 in
  let ps := [passes Z string; passes Z string] in
  let r1 := validate ps 500 thermometer (temperature string) e1 false in
  getTimestamp Z e1 = 100
  /\ update Z string r1 <> None
  /\ Forall (keepsAsset Z string) ps
  /\ exists a1 st1,
       target Z string r1 = Some a1
       /\ deref Z string a1 (temperature string) = Some st1
       /\ currentValue Z st1 = 21
       /\ lastUpdateTimestamp Z st1 = 100
       /\ let r2 := validate ps 600 a1 (temperature string) e2 false in
          invoked Z string r2 = [] /\ target Z string r2 = Some a1.
Proof.
  intros e1 e2 ps r1.
  assert (getTimestamp Z e1 = 100) as H1 by reflexivity.
  assert (update Z string r1 <> None) as H2 by (vm_compute; discriminate).
  assert (Forall (keepsAsset Z string) ps) as H3
    by (repeat constructor; intros u; reflexivity).
  split; [exact H1|]. split; [exact H2|]. split; [exact H3|].
  destruct (proj2 (proj2 (stale_event_is_dropped Z string nonNegative assetText
                            updateText))
              ps 500 thermometer (temperature string) e1 false H1 H2 H3)
    as (a1 & st1 & Ht & Hd & Hv & Hts & Hdrop).
  exists a1, st1. split; [exact Ht|]. split; [exact Hd|].
  split; [exact Hv|]. split; [exact Hts|].
  destruct (Hdrop 600 e2 false (or_introl eq_refl)) as (Hi & _ & Htg).
  split; [exact Hi | exact Htg].
Defined.

(** C2 on the consumers [passes; throws; handles]: the third is never
    called and the caller gets the failure naming the second. *)
Lemma consumer_failure_escalates_witness :
  let ps := [passes Z string; throws Z string diskFull; handles Z string] in
  let r := validate ps 500 thermometer (temperature string) (reading Z 21 100)
             false in
  exists inv,
    invoked Z string r !! 1%nat = Some inv
    /\ raised Z string inv = Some diskFull
    /\ processor Z string <$> invoked Z string r
       = [passes Z string; throws Z string diskFull]
    /\ outcome Z string r
       = Thrown (RuntimeException "Processor throws error: update" (Some diskFull))
    /\ (currentValue Z <$> (target Z string r
                            ≫= fun a => deref Z string a (temperature string)))
       = Some 21.
Proof.
  intros ps r.
  eexists. split; [vm_compute; reflexivity|].
  match goal with |- raised _ _ ?x = _ /\ _ => set (inv := x) end.
  assert (invoked Z string r !! 1%nat = Some inv) as Hi by reflexivity.
  assert (raised Z string inv = Some diskFull) as Ht by reflexivity.
  split; [exact Ht|].
  destruct (proj2 (consumer_failure_escalates Z string nonNegative updateText)
              ps 500 thermometer (temperature string) (reading Z 21 100) false
              1%nat inv diskFull Hi Ht)
    as (a' & st & first & _ & _ & _ & _ & _ & _ & _ & _ & _).
  destruct (proj1 (consumer_failure_escalates Z string nonNegative updateText)
              ps _ 1%nat inv diskFull Hi Ht)
    as (_ & _ & Hpre & _ & _ & Ho & _).
  split; [exact Hpre|]. split; [|reflexivity].
  etransitivity; [exact Ho|]. vm_compute. reflexivity.
Defined.

(** C3 on the consumers [handles; passes; passes]: only the first is
    called and the chain returns. *)
Lemma handled_short_circuits_witness :
  let ps := [handles Z string; passes Z string; passes Z string] in
  let r := chain ps (newAssetUpdate Z string thermometer (temperature string)
                       0 (-1) false) in
  exists inv,
    invoked Z string r !! 0%nat = Some inv
    /\ status Z string (inspected Z string inv) = HANDLED
    /\ processor Z string <$> invoked Z string r = [handles Z string]
    /\ status Z string <$> update Z string r = Some COMPLETED
    /\ outcome Z string r = Processed.
Proof.
  intros ps r. eexists. split; [vm_compute; reflexivity|].
  match goal with |- status _ _ (inspected _ _ ?x) = _ /\ _ => set (inv := x) end.
  assert (invoked Z string r !! 0%nat = Some inv) as Hi by reflexivity.
  assert (status Z string (inspected Z string inv) = HANDLED) as Hh by reflexivity.
  split; [exact Hh|].
  destruct (handled_short_circuits Z string updateText ps _ 0%nat inv Hi Hh)
    as (_ & _ & _ & Hpre & (u' & Hu & Hs & _) & Ho).
  split; [exact Hpre|]. split; [|exact Ho].
  etransitivity; [exact (f_equal (fmap (status Z string)) Hu)|].
  simpl. by rewrite Hs.
Defined.

(** C4 on an agent asset. *)
Lemma agent_update_is_refused_witness :
  let a := device Z AGENT 0 (-1) false None in
  let r := submitUser (storing Z a) [passes Z string] 500 (reading Z 21 100) in
  find Z (storing Z a) (getEntityId Z (reading Z 21 100)) = Some a
  /\ wellKnownType Z a = AGENT
  /\ outcome Z string r
     = Thrown (IllegalArgumentException
                 "Agent attributes can not be updated individually, update the whole asset instead: asset")
  /\ invoked Z string r = []
  /\ target Z string r = Some a.
Proof.
  intros a r.
  assert (find Z (storing Z a) (getEntityId Z (reading Z 21 100)) = Some a)
    as Hf by reflexivity.
  assert (wellKnownType Z a = AGENT) as Ht by reflexivity.
  split; [exact Hf|]. split; [exact Ht|].
  destruct (agent_update_is_refused Z string nonNegative assetText updateText
              (storing Z a) [passes Z string] 500 (reading Z 21 100) a Hf Ht)
    as (Ho & Hi & _ & Htg).
  split; [exact Ho|]. split; [exact Hi | exact Htg].
Defined.

(** C5 on a value the attribute refuses: a negative reading. *)
Lemma rejection_has_no_side_effect_witness :
  let store := storing Z thermometer in
  let ev := reading Z (-5) 100 in
  let r := submitUser store [passes Z string] 500 ev in
  outcome Z string r
  = Ignored (ConstraintViolation
               (IllegalArgumentException "attribute constraint violation"))
  /\ invoked Z string r = []
  /\ update Z string r = None
  /\ target Z string r = Some thermometer.
Proof.
  intros store ev r.
  assert (outcome Z string r
          = Ignored (ConstraintViolation
                       (IllegalArgumentException "attribute constraint violation")))
    as Ho by reflexivity.
  split; [exact Ho|].
  destruct (rejection_has_no_side_effect Z string nonNegative assetText updateText
              store (fun _ => None) [passes Z string] 500 ev r
              (or_introl eq_refl) (or_introl (ex_intro _ _ Ho)))
    as (Hi & Hu & Htg & _).
  split; [exact Hi|]. split; [exact Hu | exact Htg].
Defined.

(** C6 on an empty store. *)
Lemma sensor_update_without_asset_is_dropped_witness :
  let ev := reading Z 21 100 in
  let r := submitSensor ∅ (fun _ => Some "knx") [passes Z string] 500 ev in
  find Z ∅ (getEntityId Z ev) = None
  /\ outcome Z string r = Ignored NotLinkedToAgent
  /\ invoked Z string r = []
  /\ target Z string r = None.
Proof.
  intros ev r.
  assert (find Z ∅ (getEntityId Z ev) = None) as Hf by reflexivity.
  split; [exact Hf|].
  destruct (sensor_update_without_asset_is_dropped Z string nonNegative updateText
              ∅ (fun _ => Some "knx") [passes Z string] 500 ev Hf)
    as (Ho & Hi & _ & Htg).
  split; [exact Ho|]. split; [exact Hi | exact Htg].
Defined.

(** C7 as stated fails on an agent: a southbound update of a read-only
    attribute of an agent asset is not dropped silently, it throws to the
    caller. *)
Lemma read_only_update_of_agent_throws :
  let a := device Z AGENT 0 (-1) true None in
  let ev := reading Z 21 100 in
  let r := submitUser (storing Z a) [passes Z string] 500 ev in
  find Z (storing Z a) (getEntityId Z ev) = Some a
  /\ (readOnly Z <$> attributes Z a !! getAttributeName Z ev) = Some true
  /\ outcome Z string r
     = Thrown (IllegalArgumentException
                 "Agent attributes can not be updated individually, update the whole asset instead: asset").
Proof. repeat split. Qed.

(** C7, as amended, on a read-only attribute of a thing. *)
Lemma read_only_attribute_is_never_written_witness :
  let a := device Z THING 0 (-1) true None in
  let ev := reading Z 21 100 in
  let r := submitUser (storing Z a) [passes Z string] 500 ev in
  find Z (storing Z a) (getEntityId Z ev) = Some a
  /\ attributes Z a !! getAttributeName Z ev
     = Some (mkAssetAttribute Z 0 (-1) true None)
  /\ outcome Z string r = Ignored AttributeReadOnly
  /\ invoked Z string r = []
  /\ target Z string r = Some a.
Proof.
  intros a ev r.
  assert (find Z (storing Z a) (getEntityId Z ev) = Some a) as Hf by reflexivity.
  assert (attributes Z a !! getAttributeName Z ev
          = Some (mkAssetAttribute Z 0 (-1) true None)) as Hst by reflexivity.
  split; [exact Hf|]. split; [exact Hst|].
  destruct (read_only_attribute_is_never_written Z string nonNegative assetText
              updateText (storing Z a) [passes Z string] 500 ev a _ Hf Hst eq_refl)
    as (Hi & _ & Htg & Ho & _).
  split; [apply Ho; discriminate|]. split; [exact Hi | exact Htg].
Defined.

(** C8 fails where the subtraction overflows: an event stamped
    [Long.MIN_VALUE] is far in the past, yet [timestamp - now] wraps around
    to a large positive number and the event is rejected as lying in the
    future; had the difference been computed exactly, this check would have
    let it through. *)
Theorem future_check_overflows :
  let ev := reading Z 21 Long.MIN_VALUE in
  let now := 1000000 in
  Long.inRange (getTimestamp Z ev) /\ Long.inRange now
  /\ getTimestamp Z ev - now <= 1000
  /\ Long.sub (getTimestamp Z ev) now = 9223372036853775808
  /\ submitUser (storing Z thermometer) [passes Z string] now ev
     = ignored Z string (Some thermometer) EventTimeInFuture
  /\ submitSensor (storing Z (device Z THING 0 (-1) false
                                (Some (mkAttributeRef "agent1" "knx"))))
       (fun _ => Some "knx") [passes Z string] now ev
     = ignored Z string
         (Some (device Z THING 0 (-1) false (Some (mkAttributeRef "agent1" "knx"))))
         EventTimeInFuture.
Proof. repeat split; vm_compute; congruence. Qed.

(** C9 as stated fails on a consumer that attaches an error itself: it does
    not throw, it leaves the status [ERROR], and the failure raised to the
    caller carries the attached error as its cause. *)
Lemma reported_error_becomes_the_cause :
  let ps := [reportsError Z string diskFull; passes Z string] in
  let r := chain ps (newAssetUpdate Z string thermometer (temperature string)
                       0 (-1) false) in
  raised Z string <$> invoked Z string r = [None]
  /\ (fun i => status Z string (returned Z string i)) <$> invoked Z string r
     = [ERROR]
  /\ outcome Z string r
     = Thrown (RuntimeException "Processor reportsError error: update"
                                (Some diskFull)).
Proof. repeat split. Qed.

(** C9, as amended, on a consumer that only sets the status. *)
Lemma error_status_escalates_witness :
  let ps := [passes Z string; flagsError Z string; passes Z string] in
  let r := chain ps (newAssetUpdate Z string thermometer (temperature string)
                       0 (-1) false) in
  exists inv,
    invoked Z string r !! 1%nat = Some inv
    /\ raised Z string inv = None
    /\ status Z string (returned Z string inv) = ERROR
    /\ processor Z string <$> invoked Z string r
       = [passes Z string; flagsError Z string]
    /\ outcome Z string r
       = Thrown (RuntimeException "Processor flagsError error: update" None).
Proof.
  intros ps r. eexists. split; [vm_compute; reflexivity|].
  match goal with |- raised _ _ ?x = _ /\ _ => set (inv := x) end.
  assert (invoked Z string r !! 1%nat = Some inv) as Hi by reflexivity.
  assert (raised Z string inv = None) as Hq by reflexivity.
  assert (status Z string (returned Z string inv) = ERROR) as He by reflexivity.
  split; [exact Hq|]. split; [exact He|].
  destruct (error_status_escalates Z string updateText ps _ 1%nat inv Hi Hq He)
    as (_ & Hpre & _ & _ & _ & Hn).
  split; [exact Hpre|].
  etransitivity; [exact (Hn eq_refl)|]. reflexivity.
Defined.

(** C10 on a consumer that sets [HANDLED] and then throws. *)
Lemma throw_overrides_status_witness :
  let ps := [handlesThenThrows Z string diskFull; passes Z string] in
  let r := chain ps (newAssetUpdate Z string thermometer (temperature string)
                       0 (-1) false) in
  exists inv,
    invoked Z string r !! 0%nat = Some inv
    /\ raised Z string inv = Some diskFull
    /\ status Z string (returned Z string inv) = HANDLED
    /\ status Z string (inspected Z string inv) = ERROR
    /\ length (invoked Z string r) = 1%nat
    /\ outcome Z string r <> Processed.
Proof.
  intros ps r. eexists. split; [vm_compute; reflexivity|].
  match goal with |- raised _ _ ?x = _ /\ _ => set (inv := x) end.
  assert (invoked Z string r !! 0%nat = Some inv) as Hi by reflexivity.
  assert (raised Z string inv = Some diskFull) as Ht by reflexivity.
  split; [exact Ht|]. split; [reflexivity|].
  destruct (throw_overrides_status Z string updateText ps _ 0%nat inv diskFull
              Hi Ht)
    as (Hs & _ & Hl & _ & Hn).
  split; [exact Hs|]. split; [exact Hl | exact Hn].
Defined.

(** The spec's scenario, run in full: an attribute that was never set
    accepts a reading, every consumer is called in order, the context ends
    [COMPLETED] and the attribute holds the reading; an older reading is then
    ignored. *)
Example accepted_reading_reaches_every_consumer :
  let ps := [passes Z string; passes Z string; passes Z string] in
  let r := submitUser (storing Z thermometer) ps 1500 (reading Z 21 1000) in
  outcome Z string r = Processed
  /\ processor Z string <$> invoked Z string r = ps
  /\ status Z string <$> update Z string r = Some COMPLETED
  /\ target Z string r = Some (device Z THING 21 1000 false None)
  /\ submitUser (storing Z (device Z THING 21 1000 false None)) ps 1600
       (reading Z 22 999)
     = ignored Z string (Some (device Z THING 21 1000 false None))
         EventTimeOlderThanLastState.
Proof. repeat split. Qed.

(** * The further properties on concrete runs *)

Local Abbreviation fresh :=
  (newAssetUpdate Z string thermometer (temperature string) 0 (-1) false).
Local Abbreviation knxLink := (mkAttributeRef "agent1" "knx").

(** X3 on [passes; handles]. *)
Lemma context_is_threaded_witness :
  let r := chain [passes Z string; handles Z string] fresh in
  exists i j,
    invoked Z string r !! 0%nat = Some i
    /\ invoked Z string r !! 1%nat = Some j
    /\ given Z string i = fresh
    /\ given Z string j = inspected Z string i
    /\ stops (status Z string (inspected Z string i)) = false.
Proof.
  intros r. eexists _, _.
  split; [vm_compute; reflexivity|]. split; [vm_compute; reflexivity|].
  match goal with |- given _ _ ?x = _ /\ given _ _ ?y = _ /\ _ =>
    set (i := x); set (j := y) end.
  assert (invoked Z string r !! 0%nat = Some i) as Hi by reflexivity.
  assert (invoked Z string r !! 1%nat = Some j) as Hj by reflexivity.
  split; [exact (proj1 (context_is_threaded Z string updateText) _ _ i Hi)|].
  exact (proj2 (context_is_threaded Z string updateText) _ _ 0%nat i j Hi Hj).
Defined.

(** X4 on [handles; passes]: what follows [handles] can be replaced. *)
Lemma uncalled_consumers_do_not_matter_witness :
  let ps := [handles Z string; passes Z string] in
  exists i,
    invoked Z string (chain ps fresh) !! 0%nat = Some i
    /\ stops (status Z string (inspected Z string i)) = true
    /\ chain [handles Z string; throws Z string diskFull] fresh = chain ps fresh.
Proof.
  intros ps. eexists. split; [vm_compute; reflexivity|].
  match goal with |- stops (status _ _ (inspected _ _ ?x)) = _ /\ _ =>
    set (i := x) end.
  assert (invoked Z string (chain ps fresh) !! 0%nat = Some i) as Hi
    by reflexivity.
  assert (stops (status Z string (inspected Z string i)) = true) as Hs
    by reflexivity.
  split; [exact Hs|].
  exact (uncalled_consumers_do_not_matter Z string updateText ps fresh 0%nat i
           [throws Z string diskFull] Hi Hs).
Defined.

(** X5 on [passes] followed by [handles; passes]. *)
Lemma chain_of_appended_processors_witness :
  let ps1 := [passes Z string] in
  let ps2 := [handles Z string; passes Z string] in
  Forall (fun i => stops (status Z string (inspected Z string i)) = false)
         (invoked Z string (chain ps1 fresh))
  /\ processor Z string <$> invoked Z string (chain (ps1 ++ ps2) fresh)
     = [passes Z string; handles Z string]
  /\ outcome Z string (chain (ps1 ++ ps2) fresh) = Processed.
Proof.
  intros ps1 ps2.
  assert (Forall (fun i => stops (status Z string (inspected Z string i)) = false)
                 (invoked Z string (chain ps1 fresh))) as Hall
    by (repeat constructor).
  split; [exact Hall|].
  rewrite (chain_of_appended_processors Z string updateText ps1 ps2 fresh Hall).
  split; reflexivity.
Defined.

(** X6 on three consumers that leave the status alone. *)
Lemma chain_runs_through_when_no_consumer_stops_witness :
  let ps := [passes Z string; passes Z string; passes Z string] in
  stops (status Z string fresh) = false
  /\ processor Z string <$> invoked Z string (chain ps fresh) = ps
  /\ outcome Z string (chain ps fresh) = Processed.
Proof.
  intros ps.
  assert (stops (status Z string fresh) = false) as Hu by reflexivity.
  split; [exact Hu|].
  destruct (chain_runs_through_when_no_consumer_stops Z string updateText ps
              fresh Hu) as (Hp & Ho & _).
  { repeat constructor; intros c Hc; exact Hc. }
  split; [exact Hp | exact Ho].
Defined.

(** X7 on the first reading of a thermometer. *)
Lemma valid_event_is_accepted_witness :
  let ev := reading Z 21 100 in
  let r := validate [passes Z string] 500 thermometer (temperature string) ev
             false in
  deref Z string thermometer (temperature string)
  = Some (mkAssetAttribute Z 0 (-1) false None)
  /\ Long.sub (getTimestamp Z ev) 500 <= 1000
  /\ outcome Z string r = Processed
  /\ target Z string r = Some (device Z THING 21 100 false None)
  /\ (oldValue Z string <$> update Z string r) = Some 0
  /\ (oldValueTimestamp Z string <$> update Z string r) = Some (-1).
Proof.
  intros ev r.
  assert (deref Z string thermometer (temperature string)
          = Some (mkAssetAttribute Z 0 (-1) false None)) as Hd by reflexivity.
  assert (Long.sub (getTimestamp Z ev) 500 <= 1000) as Hf
    by (vm_compute; discriminate).
  split; [exact Hd|]. split; [exact Hf|].
  subst r.
  rewrite (valid_event_is_accepted Z string nonNegative updateText
             [passes Z string] 500 thermometer (temperature string) ev false _
             Hd Hf (or_introl eq_refl) eq_refl).
  repeat split.
Defined.

(** X8: on a never-set attribute even a reading stamped before the sentinel
    is taken. *)
Lemma never_set_attribute_skips_ordering_witness :
  let ev := reading Z 21 (-5) in
  let r := validate [passes Z string] 500 thermometer (temperature string) ev
             false in
  deref Z string thermometer (temperature string)
  = Some (mkAssetAttribute Z 0 (-1) false None)
  /\ outcome Z string r <> Ignored EventTimeOlderThanLastState
  /\ target Z string r = Some (device Z THING 21 (-5) false None).
Proof.
  intros ev r.
  assert (deref Z string thermometer (temperature string)
          = Some (mkAssetAttribute Z 0 (-1) false None)) as Hd by reflexivity.
  split; [exact Hd|]. split; [|reflexivity].
  exact (never_set_attribute_skips_ordering Z string nonNegative updateText
           [passes Z string] 500 thermometer (temperature string) ev false _
           Hd eq_refl).
Defined.

(** X9 on a thermometer last updated at 100 and a reading stamped 150. *)
Lemma timestamp_never_goes_back_witness :
  let a := device Z THING 21 100 false None in
  let ps := [passes Z string] in
  let r := validate ps 500 a (temperature string) (reading Z 30 150) false in
  deref Z string a (temperature string)
  = Some (mkAssetAttribute Z 21 100 false None)
  /\ Forall (keepsAsset Z string) ps
  /\ exists a' st',
       target Z string r = Some a'
       /\ deref Z string a' (temperature string) = Some st'
       /\ 100 <= lastUpdateTimestamp Z st'.
Proof.
  intros a ps r.
  assert (deref Z string a (temperature string)
          = Some (mkAssetAttribute Z 21 100 false None)) as Hd by reflexivity.
  assert (Forall (keepsAsset Z string) ps) as Hk
    by (repeat constructor; intros u; reflexivity).
  split; [exact Hd|]. split; [exact Hk|].
  assert (0 <= lastUpdateTimestamp Z (mkAssetAttribute Z 21 100 false None))
    as H0 by (simpl; lia).
  destruct (timestamp_never_goes_back Z string nonNegative updateText ps 500 a
              (temperature string) (reading Z 30 150) false _ Hd H0 Hk)
    as (a' & st' & Ht & Hd' & Hcases).
  exists a', st'. split; [exact Ht|]. split; [exact Hd'|].
  destruct Hcases as [(_ & -> & _) | (Hlt & _)]; simpl in *; lia.
Defined.

(** X10 at the boundary: a reading stamped 1001 ms ahead is ignored. *)
Lemma future_check_exact_witness :
  let ev := reading Z 21 1501 in
  Long.inRange (getTimestamp Z ev - 500)
  /\ 1000 < getTimestamp Z ev - 500
  /\ validate [passes Z string] 500 thermometer (temperature string) ev false
     = ignored Z string (Some thermometer) EventTimeInFuture.
Proof.
  intros ev.
  assert (Long.inRange (getTimestamp Z ev - 500)) as Hr
    by (vm_compute; split; discriminate).
  assert (1000 < getTimestamp Z ev - 500) as Hf by reflexivity.
  split; [exact Hr|]. split; [exact Hf|].
  exact (proj1 (future_check_exact Z string nonNegative updateText
                  [passes Z string] 500 thermometer (temperature string) ev
                  false Hr) Hf).
Defined.

(** X11 on the spec's example: a reading stamped 5000 ms ahead. *)
Lemma future_events_rejected_on_positive_clock_witness :
  let ev := reading Z 21 6500 in
  Long.inRange (getTimestamp Z ev) /\ Long.inRange 1500 /\ 0 <= 1500
  /\ validate [passes Z string] 1500 thermometer (temperature string) ev false
     = ignored Z string (Some thermometer) EventTimeInFuture.
Proof.
  intros ev.
  assert (Long.inRange (getTimestamp Z ev)) as H1
    by (vm_compute; split; discriminate).
  assert (Long.inRange 1500) as H2 by (vm_compute; split; discriminate).
  assert (0 <= 1500) as H3 by lia.
  split; [exact H1|]. split; [exact H2|]. split; [exact H3|].
  exact (proj1 (future_events_rejected_on_positive_clock Z string nonNegative
                  updateText [passes Z string] 1500 thermometer
                  (temperature string) ev false H1 H2 H3) eq_refl).
Defined.

(** X12 on an empty store. *)
Lemma southbound_missing_target_is_ignored_witness :
  let ev := reading Z 21 100 in
  find Z ∅ (getEntityId Z ev) = None
  /\ submitUser ∅ [passes Z string] 500 ev = ignored Z string None AssetNotFound.
Proof.
  intros ev.
  assert (find Z ∅ (getEntityId Z ev) = None) as Hf by reflexivity.
  split; [exact Hf|].
  exact (proj1 (southbound_missing_target_is_ignored Z string nonNegative
                  assetText updateText ∅ [passes Z string] 500 ev) Hf).
Defined.


(** X14 on a read-only, linked attribute of an agent asset. *)
Lemma northbound_ignores_read_only_and_type_witness :
  let a := device Z AGENT 0 (-1) true (Some knxLink) in
  let ev := reading Z 21 100 in
  let r := submitSensor (storing Z a) (fun _ => Some "knx") [passes Z string]
             500 ev in
  find Z (storing Z a) (getEntityId Z ev) = Some a
  /\ attributes Z a !! getAttributeName Z ev
     = Some (mkAssetAttribute Z 0 (-1) true (Some knxLink))
  /\ outcome Z string r = Processed
  /\ target Z string r = Some (device Z AGENT 21 100 true (Some knxLink))
  /\ (northbound Z string <$> update Z string r) = Some true.
Proof.
  intros a ev r.
  assert (find Z (storing Z a) (getEntityId Z ev) = Some a) as Hf by reflexivity.
  assert (attributes Z a !! getAttributeName Z ev
          = Some (mkAssetAttribute Z 0 (-1) true (Some knxLink))) as Hst
    by reflexivity.
  assert (Long.sub (getTimestamp Z ev) 500 <= 1000) as Hfut
    by (vm_compute; discriminate).
  split; [exact Hf|]. split; [exact Hst|].
  subst r.
  rewrite (northbound_ignores_read_only_and_type Z string nonNegative updateText
             (storing Z a) (fun _ => Some "knx") [passes Z string] 500 ev a _
             knxLink "knx" Hf Hst eq_refl eq_refl Hfut (or_introl eq_refl)
             eq_refl).
  repeat split.
Defined.

(** X17 on a reading that is both stale and invalid: it is reported as
    stale. *)
Lemma validation_diagnostics_witness :
  let a := device Z THING 21 100 false None in
  let ev := reading Z (-5) 50 in
  let r := validate [passes Z string] 500 a (temperature string) ev false in
  deref Z string a (temperature string)
  = Some (mkAssetAttribute Z 21 100 false None)
  /\ outcome Z string r = Ignored EventTimeOlderThanLastState.
Proof.
  intros a ev r.
  assert (deref Z string a (temperature string)
          = Some (mkAssetAttribute Z 21 100 false None)) as Hd by reflexivity.
  split; [exact Hd|].
  destruct (validation_diagnostics Z string nonNegative updateText
              [passes Z string] 500 a (temperature string) ev false _ Hd)
    as (_ & Hstale & _).
  apply Hstale. split; [vm_compute; discriminate|]. simpl. lia.
Defined.
